(** * scripts/detect_plate.py: batch licence-plate detection driver

    A shallow embedding of the script: the command-line resolution
    ([parse_opt]), the file-type filter ([is_image_file]) and the batch
    loop ([main]), followed by the properties of the orchestration.
    The definitions come first, the lemmas and theorems after them.

    The external collaborators (argparse, os, cv2, loguru and the
    [Detection] class of the models directory) are not part of the script.
    They appear here through their call contracts only: argparse as the
    per-option "omitted or supplied" resolution with the defaults written in
    the [add_argument] calls, the others as the fields of an [External]
    record that a run is parameterised by. *)

From Stdlib Require Import ZArith QArith Qround String Ascii List Lia.
From stdpp Require Import gmap strings list fin_maps.

Close Scope Q_scope.
Open Scope string_scope.

(** ** Python values used by the script *)

(** A Python float.  The script never computes with one: thresholds are
    handed on as parsed and box coordinates are only converted by [int].
    A finite value is kept as a rational; a decimal literal of the script
    is written as that decimal (0.1 as 1/10), not as the double nearest to
    it, which nothing below depends on. *)
Inductive pyfloat :=
| Finite (q : Q)
| Inf (negative : bool)
| NaN.

(** Exceptions that can leave a call. *)
Inductive exn :=
| SystemExit (code : Z)     (* argparse reporting a usage error *)
| ValueError                (* wrong unpacking arity, int(nan) *)
| OverflowError             (* int(inf) *)
| Raised (origin : string). (* raised inside an external collaborator *)

Inductive result (A : Type) :=
| Ok (a : A)
| Raise (e : exn).
Arguments Ok {A} a.
Arguments Raise {A} e.

#[global] Instance result_ret : MRet result := fun A a => Ok a.
#[global] Instance result_bind : MBind result := fun A B f r =>
  match r with
  | Ok a => f a
  | Raise e => Raise e
  end.

(** [int(x)] on a float: truncation toward zero; infinities and NaN raise. *)
Definition py_int (x : pyfloat) : result Z :=
  match x with
  | Finite q => Ok (Z.quot (Qnum q) (Z.pos (Qden q)))
  | Inf _ => Raise OverflowError
  | NaN => Raise ValueError
  end.

(** [l * n] on a list: [n] copies of [l] in a row. *)
Definition py_list_mul {A} (l : list A) (n : nat) : list A :=
  mjoin (replicate n l).

(** [str.lower] restricted to the ASCII letters; every other byte is kept.
    On UTF-8 file names this agrees with Python on whether the lowered name
    ends with one of the (pure ASCII) extensions below. *)
Definition lower_ascii (c : ascii) : ascii :=
  let n := nat_of_ascii c in
  if (65 <=? n)%nat && (n <=? 90)%nat then ascii_of_nat (n + 32) else c.

Fixpoint lower (s : string) : string :=
  match s with
  | EmptyString => EmptyString
  | String c rest => String (lower_ascii c) (lower rest)
  end.

(** [s.endswith(suffix)] for one suffix and for a tuple of suffixes. *)
Definition endswith1 (s suffix : string) : bool :=
  let n := String.length s in
  let k := String.length suffix in
  (k <=? n)%nat && String.eqb (substring (n - k) k s) suffix.

Definition endswith (s : string) (suffixes : list string) : bool :=
  existsb (endswith1 s) suffixes.

(** [os.path.join(a, b)] on POSIX paths. *)
Definition startswith_slash (s : string) : bool :=
  match s with
  | String c _ => Ascii.eqb c "/"
  | EmptyString => false
  end.

Definition path_join (a b : string) : string :=
  if startswith_slash b then b
  else if String.eqb a "" || endswith1 a "/" then a +:+ b
  else a +:+ "/" +:+ b.

(** ** parse_opt *)

(** The value stored under [weights]: argparse stores a default as it is
    written, and the list of the given values under [nargs='+']. *)
Inductive weights_value :=
| WStr (s : string)
| WList (l : list string).

(** What the command line gives for each option: [None] when the option is
    omitted, otherwise its converted value(s).  [--keep-size] is a
    [store_true] flag.  Command lines that argparse answers without
    returning a namespace for another reason ([--help], an unknown option,
    a value that does not convert) are not values of this type: the
    record describes the command lines whose options are well formed one
    by one. *)
Record CommandLine := {
  cl_weights : option (list string);
  cl_source : option string;
  cl_des : option string;
  cl_imgsz : option (list Z);
  cl_conf_thres : option pyfloat;
  cl_iou_thres : option pyfloat;
  cl_max_det : option Z;
  cl_device : option string;
  cl_keep_size : bool
}.

(** The namespace returned by [parser.parse_args()]. *)
Record Namespace := {
  weights : weights_value;
  source : string;
  des : string;
  imgsz : list Z;
  conf_thres : pyfloat;
  iou_thres : pyfloat;
  max_det : Z;
  device : string;
  keep_size : bool
}.

Definition set_imgsz (opt : Namespace) (v : list Z) : Namespace :=
  {| weights := weights opt; source := source opt; des := des opt;
     imgsz := v; conf_thres := conf_thres opt; iou_thres := iou_thres opt;
     max_det := max_det opt; device := device opt;
     keep_size := keep_size opt |}.

(** An option declared with [nargs='+']: at least one value is required
    when the option is present (argparse exits with status 2 otherwise);
    the default is stored untouched when it is absent. *)
Definition nargs_plus {A V} (given : option (list A)) (store : list A -> V)
    (default : V) : result V :=
  match given with
  | None => Ok default
  | Some [] => Raise (SystemExit 2)
  | Some l => Ok (store l)
  end.

(** The nine [add_argument] declarations followed by [parse_args]. *)
Definition parse_args (cl : CommandLine) : result Namespace :=
  w ← nargs_plus (cl_weights cl) WList (WStr "object.pt");
  sz ← nargs_plus (cl_imgsz cl) id [1280%Z];
  mret {| weights := w;
          source := default "ch_imgs" (cl_source cl);
          des := default "ch_out" (cl_des cl);
          imgsz := sz;
          conf_thres := default (Finite (1 # 10)) (cl_conf_thres cl);
          iou_thres := default (Finite (1 # 2)) (cl_iou_thres cl);
          max_det := default 1000%Z (cl_max_det cl);
          device := default "cpu" (cl_device cl);
          keep_size := cl_keep_size cl |}.

Definition parse_opt (cl : CommandLine) : result Namespace :=
  opt ← parse_args cl;
  if (length (imgsz opt) =? 1)%nat
  then mret (set_imgsz opt (py_list_mul (imgsz opt) 2))
  else mret opt.

(** The empty command line, and command lines that set one option. *)
Definition no_options : CommandLine :=
  {| cl_weights := None; cl_source := None; cl_des := None;
     cl_imgsz := None; cl_conf_thres := None; cl_iou_thres := None;
     cl_max_det := None; cl_device := None; cl_keep_size := false |}.

(** ** is_image_file *)

Definition image_extensions : list string := [".png"; ".jpg"; ".jpeg"; ".bmp"].

Definition is_image_file (filename : string) : bool :=
  endswith (lower filename) image_extensions.

(** ** The objects main works with *)

(** One element of the sequence returned by [detector.detect]: the tuple
    [(name, conf, box)]. *)
Record Detected := {
  det_name : string;
  det_conf : pyfloat;
  det_box : list pyfloat
}.

(** The keyword arguments of the [Detection(...)] call of main. *)
Record DetectionArgs := {
  arg_size : list Z;
  arg_weights_path : weights_value;
  arg_device : string;
  arg_iou_thres : pyfloat;
  arg_conf_thres : pyfloat
}.

Inductive Font := FONT_HERSHEY_SIMPLEX.

Inductive Level := WARNING | DEBUG | INFO.

(** The five log lines of main, by their format string. *)
Inductive Message :=
| Skipped_non_image_file (img_name : string)
| Cannot_read_image (img_path : string)
| Running_detection_on_image (img_name : string)
| Detected_at (label : string) (x1 y1 x2 y2 : Z)
| Saved_result_to (output_path : string).

Definition point : Type := Z * Z.
Definition colour : Type := Z * Z * Z.

Section Driver.

(** Pixel buffers and the detector object are opaque to the script. *)
Context {Image D : Type}.

(** What one [detect] call does, as far as the caller can observe:
    the detections, the contents of the argument buffer when the call
    returns (the detector is free to draw on or resize its argument in
    place), and the returned image, which is either the argument object
    itself ([None]) or another array ([Some pixels]). *)
Record DetectReturn := {
  dr_results : list Detected;
  dr_arg_after : Image;
  dr_resized : option Image
}.

(** The collaborators of a run.  [imread] gives [None] for a file that
    does not decode; [imwrite] returns [False] rather than raising when
    the file cannot be written. *)
Record External := {
  makedirs : string -> result unit;
  listdir : string -> result (list string);
  imread : string -> option Image;
  Detection : DetectionArgs -> result D;
  detect : D -> Image -> bool -> result (D * DetectReturn);
  rectangle : Image -> point -> point -> colour -> Z -> result Image;
  putText : Image -> string -> point -> Font -> pyfloat -> colour -> Z
            -> result Image;
  imwrite : string -> Image -> result bool
}.

(** Arrays live in a store; a Python variable holds a reference. *)
Abbreviation ref := nat (only parsing).
Abbreviation heap := (gmap nat Image) (only parsing).

Inductive Event :=
| EvMakedirs (path : string)
| EvConstruct (args : DetectionArgs)
| EvListdir (path : string)
| EvLog (lvl : Level) (msg : Message)
| EvImread (path : string) (img : option ref)
| EvDetect (arg : ref) (bb_scale : bool)
| EvDetectReturn (results : list Detected) (resized : ref)
| EvRectangle (canvas : ref) (pt1 pt2 : point) (c : colour) (thickness : Z)
| EvPutText (canvas : ref) (text : string) (org : point) (f : Font)
    (scale : pyfloat) (c : colour) (thickness : Z)
| EvImwrite (path : string) (canvas : ref) (pixels : Image).

(** The outcome of running a piece of the script from a store: the calls
    and log lines it made, the store it left, and its value or the
    exception that ended it. *)
Record Run (A : Type) := {
  run_trace : list Event;
  run_heap : heap;
  run_out : result A
}.
Arguments run_trace {A} _.
Arguments run_heap {A} _.
Arguments run_out {A} _.

Definition M (A : Type) : Type := heap -> Run A.

#[global] Instance M_ret : MRet M := fun A a h =>
  {| run_trace := []; run_heap := h; run_out := Ok a |}.

#[global] Instance M_bind : MBind M := fun A B f m h =>
  let r1 := m h in
  match run_out r1 with
  | Ok a =>
      let r2 := f a (run_heap r1) in
      {| run_trace := run_trace r1 ++ run_trace r2;
         run_heap := run_heap r2;
         run_out := run_out r2 |}
  | Raise e =>
      {| run_trace := run_trace r1; run_heap := run_heap r1;
         run_out := Raise e |}
  end.

Definition lift {A} (r : result A) : M A := fun h =>
  {| run_trace := []; run_heap := h; run_out := r |}.

Definition emit (e : Event) : M unit := fun h =>
  {| run_trace := [e]; run_heap := h; run_out := Ok tt |}.

Definition alloc (pixels : Image) : M ref := fun h =>
  let l := fresh (dom h) in
  {| run_trace := []; run_heap := <[l:=pixels]> h; run_out := Ok l |}.

Definition load (l : ref) : M Image := fun h =>
  {| run_trace := []; run_heap := h;
     run_out := match h !! l with
                | Some pixels => Ok pixels
                | None => Raise (Raised "dangling reference")
                end |}.

Definition store (l : ref) (pixels : Image) : M unit := fun h =>
  {| run_trace := []; run_heap := <[l:=pixels]> h; run_out := Ok tt |}.

Definition log (lvl : Level) (msg : Message) : M unit :=
  emit (EvLog lvl msg).

Variable ext : External.

(** *** The calls main makes *)

Definition os_makedirs (path : string) : M unit :=
  emit (EvMakedirs path);; lift (makedirs ext path).

Definition os_listdir (path : string) : M (list string) :=
  emit (EvListdir path);; lift (listdir ext path).

Definition new_Detection (args : DetectionArgs) : M D :=
  emit (EvConstruct args);; lift (Detection ext args).

Definition cv2_imread (path : string) : M (option ref) :=
  match imread ext path with
  | None => emit (EvImread path None);; mret None
  | Some pixels =>
      l ← alloc pixels; emit (EvImread path (Some l));; mret (Some l)
  end.

(** [img.copy()]: a new array with the same contents. *)
Definition ndarray_copy (img : ref) : M ref :=
  pixels ← load img; alloc pixels.

(** [detector.detect(arg, bb_scale=...)]: the argument buffer is updated
    in place, the returned image is the argument or a new array.  The
    call and its return are two events, so that a call that raises is
    still seen with the flag it was given. *)
Definition detector_detect (detector : D) (arg : ref) (bb_scale : bool)
    : M (D * list Detected * ref) :=
  pixels ← load arg;
  emit (EvDetect arg bb_scale);;
  '(detector', r) ← lift (detect ext detector pixels bb_scale);
  store arg (dr_arg_after r);;
  resized ← match dr_resized r with
            | None => mret arg
            | Some p => alloc p
            end;
  emit (EvDetectReturn (dr_results r) resized);;
  mret (detector', dr_results r, resized).

Definition cv2_rectangle (canvas : ref) (pt1 pt2 : point) (c : colour)
    (thickness : Z) : M unit :=
  pixels ← load canvas;
  emit (EvRectangle canvas pt1 pt2 c thickness);;
  pixels' ← lift (rectangle ext pixels pt1 pt2 c thickness);
  store canvas pixels'.

Definition cv2_putText (canvas : ref) (text : string) (org : point)
    (f : Font) (scale : pyfloat) (c : colour) (thickness : Z) : M unit :=
  pixels ← load canvas;
  emit (EvPutText canvas text org f scale c thickness);;
  pixels' ← lift (putText ext pixels text org f scale c thickness);
  store canvas pixels'.

Definition cv2_imwrite (path : string) (canvas : ref) : M bool :=
  pixels ← load canvas;
  emit (EvImwrite path canvas pixels);;
  lift (imwrite ext path pixels).

(** [x1, y1, x2, y2 = map(int, box)]: the conversions happen one by one
    as the unpacking asks for items; it asks for a fifth item to check
    that there is none. *)
Fixpoint convert_each (box : list pyfloat) : result unit :=
  match box with
  | [] => mret tt
  | x :: rest => py_int x;; convert_each rest
  end.

Definition unpack_box (box : list pyfloat) : result (Z * Z * Z * Z) :=
  match box with
  | a :: b :: c :: d :: rest =>
      x1 ← py_int a; y1 ← py_int b; x2 ← py_int c; y2 ← py_int d;
      match rest with
      | [] => mret (x1, y1, x2, y2)
      | e :: _ => py_int e;; Raise ValueError
      end
  | _ => convert_each box;; Raise ValueError
  end.

(** *** main *)

(** Lines 120-136: the loop over the detections of one image. *)
Fixpoint draw_results (resized_img : ref) (results : list Detected)
    : M unit :=
  match results with
  | [] => mret tt
  | r :: rest =>
      '(x1, y1, x2, y2) ← lift (unpack_box (det_box r));
      let label := det_name r in
      cv2_rectangle resized_img (x1, y1) (x2, y2) (0, 0, 255)%Z 1;;
      cv2_putText resized_img label (x1, y1 - 3)%Z FONT_HERSHEY_SIMPLEX
        (Finite (1 # 2)) (255, 0, 255)%Z 2;;
      log DEBUG (Detected_at label x1 y1 x2 y2);;
      draw_results resized_img rest
  end.

(** Line 115: the detector is called on a copy of the decoded image. *)
Definition detect_on_copy (opt : Namespace) (detector : D) (img : ref)
    : M (D * list Detected * ref) :=
  arg ← ndarray_copy img;
  detector_detect detector arg (keep_size opt).

(** Lines 103-140: the body of the loop over the directory listing.
    [continue] is the early return of the detector unchanged. *)
Definition loop_body (opt : Namespace) (detector : D) (img_name : string)
    : M D :=
  if negb (is_image_file img_name) then
    log WARNING (Skipped_non_image_file img_name);;
    mret detector
  else
    let img_path := path_join (source opt) img_name in
    img ← cv2_imread img_path;
    match img with
    | None =>
        log WARNING (Cannot_read_image img_path);;
        mret detector
    | Some img =>
        log DEBUG (Running_detection_on_image img_name);;
        '(detector', results, resized_img) ← detect_on_copy opt detector img;
        let resized_img := if keep_size opt then img else resized_img in
        draw_results resized_img results;;
        let output_path := path_join (des opt) img_name in
        cv2_imwrite output_path resized_img;;
        log INFO (Saved_result_to output_path);;
        mret detector'
    end.

Fixpoint main_loop (opt : Namespace) (names : list string) (detector : D)
    : M D :=
  match names with
  | [] => mret detector
  | img_name :: rest =>
      detector' ← loop_body opt detector img_name;
      main_loop opt rest detector'
  end.

Definition detection_args (opt : Namespace) : DetectionArgs :=
  {| arg_size := imgsz opt;
     arg_weights_path := weights opt;
     arg_device := device opt;
     arg_iou_thres := iou_thres opt;
     arg_conf_thres := conf_thres opt |}.

Definition main (cl : CommandLine) : M unit :=
  opt ← lift (parse_opt cl);
  os_makedirs (des opt);;
  detector ← new_Detection (detection_args opt);
  names ← os_listdir (source opt);
  main_loop opt names detector;;
  mret tt.

End Driver.

Arguments run_trace {Image A} _.
Arguments run_heap {Image A} _.
Arguments run_out {Image A} _.


(** ** Properties of traces *)

(** The canvas an event draws on or writes out, if any. *)
Definition canvas_of {Image} (e : @Event Image) : option nat :=
  match e with
  | EvRectangle c _ _ _ _ => Some c
  | EvPutText c _ _ _ _ _ _ => Some c
  | EvImwrite _ c _ => Some c
  | _ => None
  end.

Definition is_construct {Image} (e : @Event Image) : bool :=
  match e with EvConstruct _ => true | _ => false end.

(** Every event a program can emit, from any store, satisfies [P]. *)
Definition emits {Image A} (P : @Event Image -> Prop) (m : M A) : Prop :=
  forall h, Forall P (run_trace (m h)).

(** A predicate on events that no call of the loop body other than the
    ones constrained below can violate. *)
Record body_closed {Image} (P : @Event Image -> Prop) (opt : Namespace)
    (img_name : string) : Prop := {
  bc_log : forall lvl msg, P (EvLog lvl msg);
  bc_imread : forall p l, P (EvImread p l);
  bc_detect : forall arg, P (EvDetect arg (keep_size opt));
  bc_return : forall rs l, P (EvDetectReturn rs l);
  bc_rectangle : forall c p1 p2 col t, P (EvRectangle c p1 p2 col t);
  bc_putText : forall c s o f sc col t, P (EvPutText c s o f sc col t);
  bc_imwrite : is_image_file img_name = true ->
               forall c px, P (EvImwrite (path_join (des opt) img_name) c px)
}.

(** A run with more events in front. *)
Definition after {Image A} (tr : list (@Event Image)) (r : Run A) : Run A :=
  {| run_trace := tr ++ run_trace r; run_heap := run_heap r;
     run_out := run_out r |}.

Section Render.
Context {Image D : Type} (ext : @External Image D).
(** What the drawing loop computes on the pixels of its canvas. *)
Fixpoint render (results : list Detected) (pixels : Image) : result Image :=
  match results with
  | [] => mret pixels
  | r :: rest =>
      '(x1, y1, x2, y2) ← unpack_box (det_box r);
      p1 ← rectangle ext pixels (x1, y1) (x2, y2) (0, 0, 255)%Z 1;
      p2 ← putText ext p1 (det_name r) (x1, y1 - 3)%Z FONT_HERSHEY_SIMPLEX
             (Finite (1 # 2)) (255, 0, 255)%Z 2;
      render rest p2
  end.
End Render.

(** Events of the drawing loop when it works on [canvas]. *)
Definition draws_on {Image} (canvas : nat) (e : @Event Image) : Prop :=
  match e with
  | EvLog _ _ => True
  | EvRectangle c _ _ _ _ => c = canvas
  | EvPutText c _ _ _ _ _ _ => c = canvas
  | _ => False
  end.

(** Events of the end of the loop body when it writes out [canvas]. *)
Definition writes_on {Image} (canvas : nat) (e : @Event Image) : Prop :=
  match e with
  | EvLog _ _ => True
  | EvImwrite _ c _ => c = canvas
  | _ => False
  end.

(** The paths handed to [imwrite], in call order. *)
Definition written_paths {Image} (tr : list (@Event Image)) : list string :=
  omap (fun e => match e with EvImwrite p _ _ => Some p | _ => None end) tr.

(** The three events the drawing loop makes for one detection. *)
Definition detection_events {Image} (canvas : nat) (r : Detected)
    : list (@Event Image) :=
  match unpack_box (det_box r) with
  | Ok (x1, y1, x2, y2) =>
      [EvRectangle canvas (x1, y1) (x2, y2) (0, 0, 255)%Z 1;
       EvPutText canvas (det_name r) (x1, y1 - 3)%Z FONT_HERSHEY_SIMPLEX
         (Finite (1 # 2)) (255, 0, 255)%Z 2;
       EvLog DEBUG (Detected_at (det_name r) x1 y1 x2 y2)]
  | Raise _ => []
  end.

Definition is_finite (x : pyfloat) : bool :=
  match x with Finite _ => true | _ => false end.

(** Rounding toward zero. *)
Definition truncate (q : Q) : Z :=
  if Qle_bool 0 q then Qfloor q else Qceiling q.

Section Candidates.
Context {Image D : Type} (ext : @External Image D).
(** The names of a listing that the loop takes as far as the detector. *)
Definition decodable (opt : Namespace) (img_name : string) : bool :=
  is_image_file img_name
  && match imread ext (path_join (source opt) img_name) with
     | Some _ => true
     | None => false
     end.
End Candidates.


(** ** A test double for the collaborators

    Used to run the script on concrete inputs.  An image is the list of
    strokes drawn on it; the detector counts its calls. *)
Module Stub.

Definition Image : Type := list string.

Record Behaviour := {
  files : list (string * Image);          (* decodable files, by path *)
  listing : list string;                  (* what listdir returns *)
  found : Image -> result (list Detected); (* what detect reports *)
  scribble : bool;                        (* detect draws on its argument *)
  fresh_output : bool                     (* detect returns a new array *)
}.

Fixpoint lookup_file (fs : list (string * Image)) (p : string)
    : option Image :=
  match fs with
  | [] => None
  | (q, im) :: rest => if String.eqb p q then Some im else lookup_file rest p
  end.

Definition external (b : Behaviour) : @External Image nat :=
  {| makedirs := fun _ => Ok tt;
     listdir := fun _ => Ok (listing b);
     imread := lookup_file (files b);
     Detection := fun _ => Ok 0%nat;
     detect := fun d im bb_scale =>
       rs ← found b im;
       let after := if scribble b then "resized" :: im else im in
       mret (S d, {| dr_results := rs;
                     dr_arg_after := after;
                     dr_resized := if fresh_output b
                                   then Some ("resized" :: im) else None |});
     rectangle := fun im _ _ _ _ => Ok ("rectangle" :: im);
     putText := fun im text _ _ _ _ _ => Ok (text :: im);
     imwrite := fun _ _ => Ok true |}.

Definition plate (box : list pyfloat) : Detected :=
  {| det_name := "plate"; det_conf := Finite (9 # 10); det_box := box |}.

Definition z (n : Z) : pyfloat := Finite (inject_Z n).

(** A directory with one photograph of a car, a text file and a file
    named as an image that does not decode; the detector resizes into a
    new array and reports one plate. *)
Definition scene : Behaviour :=
  {| files := [("ch_imgs/car1.jpg", ["car1"])];
     listing := ["car1.jpg"; "note.txt"; "bad.png"];
     found := fun _ => Ok [plate [z 100; z 50; z 200; z 80]];
     scribble := true;
     fresh_output := true |}.


(** Two photographs and a detector that reports a box of three numbers. *)
Definition short_box : Behaviour :=
  {| files := [("ch_imgs/a.png", ["a"]); ("ch_imgs/b.png", ["b"])];
     listing := ["a.png"; "b.png"];
     found := fun _ => Ok [plate [z 1; z 2; z 3]];
     scribble := false;
     fresh_output := false |}.

End Stub.

(** An empty source directory. *)
Definition empty_directory : Stub.Behaviour :=
  {| Stub.files := []; Stub.listing := [];
     Stub.found := fun _ => Ok [];
     Stub.scribble := false; Stub.fresh_output := false |}.

(** The same collaborators with an output directory that cannot be
    written: [imwrite] returns False. *)
Definition unwritable (b : Stub.Behaviour) : @External Stub.Image nat :=
  {| makedirs := makedirs (Stub.external b);
     listdir := listdir (Stub.external b);
     imread := imread (Stub.external b);
     Detection := Detection (Stub.external b);
     detect := detect (Stub.external b);
     rectangle := rectangle (Stub.external b);
     putText := putText (Stub.external b);
     imwrite := fun _ _ => Ok false |}.

(** Command lines that give one option. *)
Definition with_imgsz (l : list Z) : CommandLine :=
  {| cl_weights := None; cl_source := None; cl_des := None;
     cl_imgsz := Some l; cl_conf_thres := None; cl_iou_thres := None;
     cl_max_det := None; cl_device := None; cl_keep_size := false |}.


Definition with_max_det (n : Z) : CommandLine :=
  {| cl_weights := None; cl_source := None; cl_des := None;
     cl_imgsz := None; cl_conf_thres := None; cl_iou_thres := None;
     cl_max_det := Some n; cl_device := None; cl_keep_size := false |}.

Definition with_keep_size : CommandLine :=
  {| cl_weights := None; cl_source := None; cl_des := None;
     cl_imgsz := None; cl_conf_thres := None; cl_iou_thres := None;
     cl_max_det := None; cl_device := None; cl_keep_size := true |}.

(** The namespace of a command line that gives [--keep-size] only. *)
Definition keep_size_namespace : Namespace :=
  {| weights := WStr "object.pt"; source := "ch_imgs"; des := "ch_out";
     imgsz := [1280%Z; 1280%Z]; conf_thres := Finite (1 # 10);
     iou_thres := Finite (1 # 2); max_det := 1000%Z; device := "cpu";
     keep_size := true |}.

(** The namespace of the empty command line. *)
Definition default_namespace : Namespace :=
  {| weights := WStr "object.pt"; source := "ch_imgs"; des := "ch_out";
     imgsz := [1280%Z; 1280%Z]; conf_thres := Finite (1 # 10);
     iou_thres := Finite (1 # 2); max_det := 1000%Z; device := "cpu";
     keep_size := false |}.

(** ** Tests on concrete inputs *)

Example is_image_file_doc : is_image_file "car.jpg" = true.
Proof. reflexivity. Qed.

Example is_image_file_upper : is_image_file "CAR.JPeG" = true.
Proof. reflexivity. Qed.

Example is_image_file_txt : is_image_file "note.txt" = false.
Proof. reflexivity. Qed.

Example parse_opt_default_size :
  imgsz <$> (match parse_opt no_options with Ok o => Some o | Raise _ => None end)
  = Some [1280%Z; 1280%Z].
Proof. reflexivity. Qed.

(** ** The monad of runs *)

Section RunLemmas.

Context {Image : Type}.
Implicit Types h : gmap nat Image.

Lemma run_bind {A B} (m : M A) (f : A -> M B) h :
  (m ≫= f) h =
  match run_out (m h) with
  | Ok a =>
      {| run_trace := run_trace (m h) ++ run_trace (f a (run_heap (m h)));
         run_heap := run_heap (f a (run_heap (m h)));
         run_out := run_out (f a (run_heap (m h))) |}
  | Raise e =>
      {| run_trace := run_trace (m h); run_heap := run_heap (m h);
         run_out := Raise e |}
  end.
Proof. reflexivity. Qed.

Lemma emits_ret {A} (P : @Event Image -> Prop) (a : A) : emits P (mret a).
Proof. intros h. constructor. Qed.

Lemma emits_bind {A B} (P : @Event Image -> Prop) (m : M A) (f : A -> M B) :
  emits P m -> (forall a, emits P (f a)) -> emits P (m ≫= f).
Proof.
  intros Hm Hf h. rewrite run_bind.
  destruct (run_out (m h)) as [a|e]; cbn.
  - apply Forall_app. split; [apply Hm | apply Hf].
  - apply Hm.
Qed.

Lemma emits_lift {A} (P : @Event Image -> Prop) (r : result A) :
  emits P (lift r).
Proof. intros h. constructor. Qed.

Lemma emits_emit (P : @Event Image -> Prop) e : P e -> emits P (emit e).
Proof. intros He h. cbn. by constructor. Qed.

Lemma emits_alloc (P : @Event Image -> Prop) px : emits P (alloc px).
Proof. intros h. constructor. Qed.

Lemma emits_load (P : @Event Image -> Prop) l : emits P (load l).
Proof. intros h. constructor. Qed.

Lemma emits_store (P : @Event Image -> Prop) l px : emits P (store l px).
Proof. intros h. constructor. Qed.

Lemma after_after {A} tr1 tr2 (r : @Run Image A) :
  after tr1 (after tr2 r) = after (tr1 ++ tr2) r.
Proof. unfold after; cbn. by rewrite app_assoc. Qed.

Lemma bind_ret {A B} (a : A) (f : A -> M B) h : (mret a ≫= f) h = f a h.
Proof. rewrite run_bind. cbn. by destruct (f a h). Qed.

Lemma bind_lift_ok {A B} (a : A) (f : A -> M B) h :
  (lift (Ok a) ≫= f) h = f a h.
Proof. rewrite run_bind. cbn. by destruct (f a h). Qed.

Lemma bind_lift_raise {A B} e (f : A -> M B) h :
  (lift (Raise e) ≫= f) h =
  {| run_trace := []; run_heap := h; run_out := Raise e |}.
Proof. reflexivity. Qed.

Lemma bind_emit {B} e (f : unit -> M B) h :
  (emit e ≫= f) h = after [e] (f tt h).
Proof. reflexivity. Qed.

Lemma bind_log {B} lvl msg (f : unit -> M B) h :
  (log lvl msg ≫= f) h = after [EvLog lvl msg] (f tt h).
Proof. reflexivity. Qed.

Lemma bind_alloc {B} px (f : nat -> M B) h :
  (alloc px ≫= f) h = f (fresh (dom h)) (<[fresh (dom h):=px]> h).
Proof. rewrite run_bind. cbn. by destruct (f _ _). Qed.

Lemma bind_store {B} l px (f : unit -> M B) h :
  (store l px ≫= f) h = f tt (<[l:=px]> h).
Proof. rewrite run_bind. cbn. by destruct (f _ _). Qed.

Lemma bind_load {B} l px (f : Image -> M B) h :
  h !! l = Some px -> (load l ≫= f) h = f px h.
Proof. intros Hl. rewrite run_bind. cbn. rewrite Hl. by destruct (f _ _). Qed.

Lemma bind_assoc {A B C} (m : M A) (f : A -> M B) (g : B -> M C) h :
  ((m ≫= f) ≫= g) h = (m ≫= (λ a, f a ≫= g)) h.
Proof.
  rewrite !run_bind. destruct (run_out (m h)) as [a|e]; cbn; [|done].
  rewrite run_bind. destruct (run_out (f a _)); cbn; by rewrite ?app_assoc.
Qed.

End RunLemmas.

(** Splits a sequence of binds into its parts. *)
Ltac emits_steps :=
  repeat first
    [ apply emits_ret | apply emits_lift | apply emits_alloc
    | apply emits_load | apply emits_store
    | apply emits_bind; [| intros ? ]
    | match goal with
      | |- emits _ (match ?x with _ => _ end) => destruct x
      | |- emits _ (let '(_, _) := ?x in _) => destruct x
      end ].

(** ** What the loop can emit *)

Section LoopEvents.

Context {Image D : Type} (ext : @External Image D).
Implicit Types (h : gmap nat Image) (opt : Namespace) (P : @Event Image -> Prop).

Lemma emits_draw_results P canvas results :
  (forall lvl msg, P (EvLog lvl msg)) ->
  (forall p1 p2 col t, P (EvRectangle canvas p1 p2 col t)) ->
  (forall s o f sc col t, P (EvPutText canvas s o f sc col t)) ->
  emits P (draw_results ext canvas results).
Proof.
  intros Hlog Hrect Htext.
  induction results as [|r rest IH]; cbn [draw_results].
  - apply emits_ret.
  - unfold cv2_rectangle, cv2_putText, log.
    emits_steps; try (apply emits_emit; auto); exact IH.
Qed.

Lemma emits_detect_on_copy P opt detector img :
  (forall arg, P (EvDetect arg (keep_size opt))) ->
  (forall rs l, P (EvDetectReturn rs l)) ->
  emits P (detect_on_copy ext opt detector img).
Proof.
  intros Hd Hr. unfold detect_on_copy, ndarray_copy, detector_detect.
  emits_steps; apply emits_emit; auto.
Qed.

Lemma emits_loop_body P opt detector img_name :
  body_closed P opt img_name ->
  emits P (loop_body ext opt detector img_name).
Proof.
  intros [Hlog Hread Hdet Hret Hrect Htext Hwrite].
  unfold loop_body.
  destruct (is_image_file img_name) eqn:Himg; cbn [negb].
  2: { unfold log. emits_steps. by apply emits_emit. }
  apply emits_bind.
  { unfold cv2_imread. destruct (imread ext _); emits_steps;
      by apply emits_emit. }
  intros [img|].
  2: { unfold log. emits_steps. by apply emits_emit. }
  apply emits_bind; [by apply emits_emit |]. intros _.
  apply emits_bind; [by apply emits_detect_on_copy |].
  intros [[detector' results] resized].
  apply emits_bind; [apply emits_draw_results; auto |]. intros _.
  unfold cv2_imwrite, log. emits_steps; apply emits_emit; auto.
Qed.

Lemma emits_main_loop P opt names detector :
  (forall img_name, img_name ∈ names -> body_closed P opt img_name) ->
  emits P (main_loop ext opt names detector).
Proof.
  revert detector.
  induction names as [|img_name rest IH]; intros detector Hnames;
    cbn [main_loop].
  - apply emits_ret.
  - apply emits_bind.
    + apply emits_loop_body, Hnames. by left.
    + intros detector'. apply IH. intros n Hn. apply Hnames. by right.
Qed.

Lemma fresh_ne h l : is_Some (h !! l) -> fresh (dom h) ≠ l.
Proof.
  intros Hl Heq. apply (is_fresh (dom h)). rewrite Heq. by apply elem_of_dom.
Qed.

Lemma detect_on_copy_run opt detector img h px :
  h !! img = Some px ->
  let arg := fresh (dom h) in
  let h2 := <[arg:=px]> h in
  detect_on_copy ext opt detector img h =
  match detect ext detector px (keep_size opt) with
  | Raise e =>
      {| run_trace := [EvDetect arg (keep_size opt)]; run_heap := h2;
         run_out := Raise e |}
  | Ok (detector', r) =>
      let h3 := <[arg:=dr_arg_after r]> h2 in
      match dr_resized r with
      | None =>
          {| run_trace := [EvDetect arg (keep_size opt);
                           EvDetectReturn (dr_results r) arg];
             run_heap := h3;
             run_out := Ok (detector', dr_results r, arg) |}
      | Some p =>
          let l := fresh (dom h3) in
          {| run_trace := [EvDetect arg (keep_size opt);
                           EvDetectReturn (dr_results r) l];
             run_heap := <[l:=p]> h3;
             run_out := Ok (detector', dr_results r, l) |}
      end
  end.
Proof.
  intros Himg. cbn zeta.
  unfold detect_on_copy, ndarray_copy, detector_detect.
  rewrite bind_assoc, (bind_load _ _ _ _ Himg), bind_alloc.
  rewrite (bind_load _ px) by apply lookup_insert_eq.
  rewrite bind_emit.
  destruct (detect ext detector px (keep_size opt)) as [[detector' r]|e].
  - rewrite bind_lift_ok, bind_store.
    destruct (dr_resized r) as [p|].
    + by rewrite bind_alloc, bind_emit.
    + by rewrite bind_ret, bind_emit.
  - by rewrite bind_lift_raise.
Qed.

(** The detector call leaves the decoded image as it was. *)
Lemma detect_on_copy_frame opt detector img h px :
  h !! img = Some px ->
  run_heap (detect_on_copy ext opt detector img h) !! img = Some px.
Proof.
  intros Himg. rewrite (detect_on_copy_run _ _ _ _ _ Himg). cbn zeta.
  assert (fresh (dom h) ≠ img) as Hne by (apply fresh_ne; eauto).
  destruct (detect ext detector px (keep_size opt)) as [[detector' r]|e];
    cbn.
  - destruct (dr_resized r) as [p|]; cbn.
    + rewrite !lookup_insert_ne; [done|done|done|].
      apply fresh_ne. rewrite !lookup_insert_ne by done. eauto.
    + by rewrite !lookup_insert_ne.
  - by rewrite lookup_insert_ne.
Qed.

(** What the detector call returns is in the store and in the trace. *)
Lemma detect_on_copy_returns opt detector img h px detector' results resized :
  h !! img = Some px ->
  run_out (detect_on_copy ext opt detector img h)
    = Ok (detector', results, resized) ->
  EvDetectReturn results resized
    ∈ run_trace (detect_on_copy ext opt detector img h)
  /\ resized ≠ img
  /\ exists r,
       detect ext detector px (keep_size opt) = Ok (detector', r)
       /\ results = dr_results r
       /\ run_heap (detect_on_copy ext opt detector img h) !! resized
          = Some (default (dr_arg_after r) (dr_resized r)).
Proof.
  intros Himg. rewrite (detect_on_copy_run _ _ _ _ _ Himg). cbn zeta.
  assert (fresh (dom h) ≠ img) as Hne by (apply fresh_ne; eauto).
  destruct (detect ext detector px (keep_size opt)) as [[d1 r]|e]; [|done].
  destruct (dr_resized r) as [p|] eqn:Hres; cbn; intros [= <- <- <-].
  - split; [by right; left|]. split.
    + apply fresh_ne. rewrite !lookup_insert_ne by done. eauto.
    + exists r. by rewrite Hres, lookup_insert_eq.
  - split; [by right; left|]. split; [done|].
    exists r. by rewrite Hres, lookup_insert_eq.
Qed.

(** The drawing loop against [render]. *)
Lemma draw_results_render canvas results : forall h px,
  h !! canvas = Some px ->
  match render ext results px with
  | Ok px' =>
      run_out (draw_results ext canvas results h) = Ok tt
      /\ run_heap (draw_results ext canvas results h) !! canvas = Some px'
  | Raise e => run_out (draw_results ext canvas results h) = Raise e
  end.
Proof.
  induction results as [|r rest IH]; intros h px Hc; cbn [render draw_results].
  - by cbn.
  - destruct (unpack_box (det_box r)) as [[[[x1 y1] x2] y2]|e]; cbn;
      [|done].
    unfold cv2_rectangle, cv2_putText, log.
    rewrite run_bind. cbn [lift run_out run_heap run_trace].
    rewrite bind_assoc, (bind_load _ _ _ _ Hc), bind_assoc, bind_emit.
    rewrite bind_assoc.
    destruct (rectangle ext px _ _ _ _) as [p1|e]; cbn; [|done].
    rewrite bind_lift_ok, bind_store.
    rewrite bind_assoc, (bind_load _ p1) by apply lookup_insert_eq.
    rewrite bind_assoc, bind_emit, bind_assoc.
    destruct (putText ext p1 _ _ _ _ _ _) as [p2|e]; cbn; [|done].
    rewrite bind_lift_ok, bind_store, bind_emit.
    specialize (IH (<[canvas:=p2]> (<[canvas:=p1]> h)) p2
                   (lookup_insert_eq _ _ _)).
    cbn. exact IH.
Qed.

(** Lines 120-140 on a canvas whose pixels are known. *)
Lemma finish_run canvas results out (detector' : D) h px :
  h !! canvas = Some px ->
  (draw_results ext canvas results;;
   cv2_imwrite ext out canvas;;
   log INFO (Saved_result_to out);;
   mret detector') h =
  let rd := draw_results ext canvas results h in
  match render ext results px with
  | Raise e =>
      {| run_trace := run_trace rd; run_heap := run_heap rd;
         run_out := Raise e |}
  | Ok px' =>
      after (run_trace rd ++ [EvImwrite out canvas px'])
        match imwrite ext out px' with
        | Ok _ =>
            {| run_trace := [EvLog INFO (Saved_result_to out)];
               run_heap := run_heap rd; run_out := Ok detector' |}
        | Raise e =>
            {| run_trace := []; run_heap := run_heap rd;
               run_out := Raise e |}
        end
  end.
Proof.
  intros Hc. cbn zeta. rewrite run_bind.
  pose proof (draw_results_render canvas results h px Hc) as Hd.
  destruct (render ext results px) as [px'|e].
  - destruct Hd as [Hout Hheap]. rewrite Hout.
    unfold cv2_imwrite, log.
    rewrite bind_assoc, (bind_load _ _ _ _ Hheap), bind_assoc, bind_emit.
    destruct (imwrite ext out px') as [b|e]; cbn.
    + unfold after; cbn. by rewrite <- app_assoc.
    + unfold after; cbn. by rewrite <- app_assoc.
  - by rewrite Hd.
Qed.

Lemma loop_body_not_image opt detector img_name h :
  is_image_file img_name = false ->
  loop_body ext opt detector img_name h =
  {| run_trace := [EvLog WARNING (Skipped_non_image_file img_name)];
     run_heap := h; run_out := Ok detector |}.
Proof. intros Himg. unfold loop_body. by rewrite Himg. Qed.

Lemma loop_body_unreadable opt detector img_name h :
  is_image_file img_name = true ->
  imread ext (path_join (source opt) img_name) = None ->
  loop_body ext opt detector img_name h =
  {| run_trace := [EvImread (path_join (source opt) img_name) None;
                   EvLog WARNING
                     (Cannot_read_image (path_join (source opt) img_name))];
     run_heap := h; run_out := Ok detector |}.
Proof.
  intros Himg Hread. unfold loop_body, cv2_imread.
  by rewrite Himg, Hread.
Qed.

(** The body on a file that decodes: the detector call, then the rest
    on the chosen canvas. *)
Lemma loop_body_decoded opt detector img_name h px :
  is_image_file img_name = true ->
  imread ext (path_join (source opt) img_name) = Some px ->
  let img := fresh (dom h) in
  let rd := detect_on_copy ext opt detector img (<[img:=px]> h) in
  loop_body ext opt detector img_name h =
  after [EvImread (path_join (source opt) img_name) (Some img);
         EvLog DEBUG (Running_detection_on_image img_name)]
    match run_out rd with
    | Raise e =>
        {| run_trace := run_trace rd; run_heap := run_heap rd;
           run_out := Raise e |}
    | Ok (detector', results, resized) =>
        let canvas := if keep_size opt then img else resized in
        let out := path_join (des opt) img_name in
        after (run_trace rd)
          ((draw_results ext canvas results;;
            cv2_imwrite ext out canvas;;
            log INFO (Saved_result_to out);;
            mret detector') (run_heap rd))
    end.
Proof.
  intros Himg Hread. cbn zeta. unfold loop_body, cv2_imread.
  rewrite Himg, Hread. cbn [negb].
  rewrite bind_assoc, bind_alloc, bind_assoc, bind_emit, bind_ret.
  rewrite bind_log, after_after. cbn [app].
  f_equal. rewrite run_bind.
  destruct (run_out (detect_on_copy _ _ _ _ _)) as [[[d1 rs] rz]|e]; done.
Qed.

Lemma main_loop_continue opt img_name rest detector detector' h tr h' :
  loop_body ext opt detector img_name h =
    {| run_trace := tr; run_heap := h'; run_out := Ok detector' |} ->
  main_loop ext opt (img_name :: rest) detector h =
  after tr (main_loop ext opt rest detector' h').
Proof. intros Hb. cbn [main_loop]. rewrite run_bind, Hb. done. Qed.


Lemma main_run cl opt detector names h :
  parse_opt cl = Ok opt ->
  makedirs ext (des opt) = Ok tt ->
  Detection ext (detection_args opt) = Ok detector ->
  listdir ext (source opt) = Ok names ->
  main ext cl h =
  after [EvMakedirs (des opt); EvConstruct (detection_args opt);
         EvListdir (source opt)]
    ((main_loop ext opt names detector;; mret tt) h).
Proof.
  intros Hp Hm Hd Hl. unfold main, os_makedirs, new_Detection, os_listdir.
  rewrite Hp, bind_lift_ok, bind_assoc, bind_emit, Hm, bind_lift_ok.
  rewrite bind_assoc, bind_emit, Hd, bind_lift_ok.
  rewrite bind_assoc, bind_emit, Hl, bind_lift_ok.
  by rewrite !after_after.
Qed.

End LoopEvents.

(** ** Configuration resolution *)

Section ParseOpt.

Implicit Types (cl : CommandLine) (opt : Namespace).

(** What argparse stores when both [nargs='+'] options pass. *)
Lemma parse_args_ok cl :
  cl_weights cl ≠ Some [] ->
  cl_imgsz cl ≠ Some [] ->
  parse_args cl =
  Ok {| weights := match cl_weights cl with
                   | Some l => WList l
                   | None => WStr "object.pt"
                   end;
        source := default "ch_imgs" (cl_source cl);
        des := default "ch_out" (cl_des cl);
        imgsz := default [1280%Z] (cl_imgsz cl);
        conf_thres := default (Finite (1 # 10)) (cl_conf_thres cl);
        iou_thres := default (Finite (1 # 2)) (cl_iou_thres cl);
        max_det := default 1000%Z (cl_max_det cl);
        device := default "cpu" (cl_device cl);
        keep_size := cl_keep_size cl |}.
Proof.
  intros Hw Hs. unfold parse_args, nargs_plus.
  destruct (cl_weights cl) as [[|w ws]|]; [done| |];
    destruct (cl_imgsz cl) as [[|d ds]|]; done.
Qed.

Lemma parse_args_no_size cl :
  cl_imgsz cl = Some [] -> parse_args cl = Raise (SystemExit 2).
Proof.
  intros Hs. unfold parse_args, nargs_plus. rewrite Hs.
  by destruct (cl_weights cl) as [[|w ws]|].
Qed.

(** [parse_opt] changes nothing but [imgsz]. *)
Lemma parse_opt_ok cl :
  cl_weights cl ≠ Some [] ->
  cl_imgsz cl ≠ Some [] ->
  exists opt,
    parse_opt cl = Ok opt
    /\ imgsz opt = (let sz := default [1280%Z] (cl_imgsz cl) in
                    if (length sz =? 1)%nat then (sz ++ sz)%list else sz)
    /\ weights opt = match cl_weights cl with
                     | Some l => WList l
                     | None => WStr "object.pt"
                     end
    /\ conf_thres opt = default (Finite (1 # 10)) (cl_conf_thres cl)
    /\ iou_thres opt = default (Finite (1 # 2)) (cl_iou_thres cl)
    /\ max_det opt = default 1000%Z (cl_max_det cl).
Proof.
  intros Hw Hs. unfold parse_opt. rewrite (parse_args_ok cl Hw Hs). cbn.
  destruct (length (default [1280%Z] (cl_imgsz cl)) =? 1)%nat eqn:Hlen;
    eexists; (split; [reflexivity|]); cbn; unfold py_list_mul; cbn;
    rewrite ?app_nil_r; done.
Qed.

(** C3 (as amended).  An [--imgsz] given without a value is refused by the
    command-line parser with exit status 2, and every list of two or more
    sizes is accepted and kept as given: [h, w] resolves to [h, w], and a
    longer list is not refused either. *)
Theorem imgsz_arity_not_checked cl l :
  cl_imgsz cl = Some l ->
  (l = [] -> parse_opt cl = Raise (SystemExit 2))
  /\ (2 <= length l -> cl_weights cl ≠ Some [] ->
      exists opt, parse_opt cl = Ok opt /\ imgsz opt = l).
Proof.
  intros Hl. split.
  - intros ->. unfold parse_opt. by rewrite (parse_args_no_size cl Hl).
  - intros Hlen Hw.
    destruct (parse_opt_ok cl Hw) as (opt & Hopt & Hsz & _).
    { rewrite Hl. intros [= ->]. cbn in Hlen. lia. }
    exists opt. split; [done|]. rewrite Hsz, Hl. cbn.
    destruct l as [|a [|b l']]; cbn in *; (done || lia).
Qed.

Lemma imgsz_arity_not_checked_witness :
  parse_opt (with_imgsz []) = Raise (SystemExit 2)
  /\ exists opt,
       parse_opt (with_imgsz [480; 640]%Z) = Ok opt
       /\ imgsz opt = [480; 640]%Z.
Proof.
  destruct (imgsz_arity_not_checked (with_imgsz []) [] eq_refl) as [H0 _].
  destruct (imgsz_arity_not_checked (with_imgsz [480; 640]%Z) _ eq_refl)
    as [_ H2].
  split; [exact (H0 eq_refl) | apply H2; [cbn; lia | discriminate]].
Defined.

(** C3, as the claim states it, fails: a list of three sizes is accepted
    and reaches the resolved configuration unchanged. *)
Lemma three_sizes_accepted :
  parse_opt (with_imgsz [1; 2; 3]%Z) =
  Ok {| weights := WStr "object.pt"; source := "ch_imgs"; des := "ch_out";
        imgsz := [1; 2; 3]%Z; conf_thres := Finite (1 # 10);
        iou_thres := Finite (1 # 2); max_det := 1000%Z; device := "cpu";
        keep_size := false |}.
Proof. reflexivity. Qed.

(** C6.  A single size [d] resolves to the square [d, d]. *)
Theorem single_size_is_squared cl d :
  cl_imgsz cl = Some [d] ->
  cl_weights cl ≠ Some [] ->
  exists opt, parse_opt cl = Ok opt /\ imgsz opt = [d; d].
Proof.
  intros Hd Hw.
  destruct (parse_opt_ok cl Hw) as (opt & Hopt & Hsz & _).
  { by rewrite Hd. }
  exists opt. split; [done|]. by rewrite Hsz, Hd.
Qed.

Lemma single_size_is_squared_witness :
  exists opt, parse_opt (with_imgsz [640%Z]) = Ok opt
              /\ imgsz opt = [640; 640]%Z.
Proof.
  apply (single_size_is_squared (with_imgsz [640%Z]) 640%Z);
    [reflexivity | discriminate].
Defined.

End ParseOpt.

(** ** The detector's constructor *)

Section Constructor.

Context {Image D : Type} (ext : @External Image D).
Implicit Types (h : gmap nat Image) (opt : Namespace).




End Constructor.




(** C5.  The value of [--max-det] is parsed and then dropped: the run with
    [--max-det 7] makes the same calls, the constructor's included, as the
    run without the option, whose [max_det] is 1000. *)
Theorem max_det_not_forwarded :
  parse_opt (with_max_det 7) =
    Ok {| weights := WStr "object.pt"; source := "ch_imgs"; des := "ch_out";
          imgsz := [1280; 1280]%Z; conf_thres := Finite (1 # 10);
          iou_thres := Finite (1 # 2); max_det := 7%Z; device := "cpu";
          keep_size := false |}
  /\ parse_opt no_options = Ok default_namespace
  /\ main (Stub.external Stub.scene) (with_max_det 7) ∅
     = main (Stub.external Stub.scene) no_options ∅
  /\ List.filter is_construct
       (run_trace (main (Stub.external Stub.scene) (with_max_det 7) ∅))
     = [EvConstruct {| arg_size := [1280; 1280]%Z;
                       arg_weights_path := WStr "object.pt";
                       arg_device := "cpu";
                       arg_iou_thres := Finite (1 # 2);
                       arg_conf_thres := Finite (1 # 10) |}].
Proof. repeat split; vm_compute; reflexivity. Qed.

(** C9.  Without [--weights] the namespace holds the bare string
    ["object.pt"], not a list of strings, and that string is what the
    constructor receives as [weights_path]. *)
Theorem default_weights_is_a_bare_string :
  parse_opt no_options = Ok default_namespace
  /\ weights default_namespace = WStr "object.pt"
  /\ (forall l, weights default_namespace ≠ WList l)
  /\ List.filter is_construct
       (run_trace (main (Stub.external Stub.scene) no_options ∅))
     = [EvConstruct {| arg_size := [1280; 1280]%Z;
                       arg_weights_path := WStr "object.pt";
                       arg_device := "cpu";
                       arg_iou_thres := Finite (1 # 2);
                       arg_conf_thres := Finite (1 # 10) |}].
Proof. repeat split; try (vm_compute; reflexivity). intros l; discriminate. Qed.

(** ** File names *)

Section Strings.

Lemma length_append s t :
  String.length (s +:+ t) = (String.length s + String.length t)%nat.
Proof. induction s as [|c s IH]; simpl; [done | by f_equal]. Qed.

Lemma substring_whole s : substring 0 (String.length s) s = s.
Proof. induction s as [|c s IH]; simpl; [done | by f_equal]. Qed.

Lemma substring_append_r s t :
  substring (String.length s) (String.length t) (s +:+ t) = t.
Proof. induction s as [|c s IH]; simpl; [apply substring_whole | done]. Qed.

Lemma substring_split s : forall m,
  (m <= String.length s)%nat ->
  s = substring 0 m s +:+ substring m (String.length s - m) s.
Proof.
  induction s as [|c s IH]; intros [|m] Hm; simpl in *; try done.
  - change (String c s = String c (substring 0 (String.length s) s)).
    by rewrite substring_whole.
  - change (String c s = String c (substring 0 m s
                           +:+ substring m (String.length s - m) s)).
    f_equal. apply IH. lia.
Qed.

(** [endswith1] is "is of the form prefix + suffix". *)
Lemma endswith1_spec s suffix :
  endswith1 s suffix = true <-> exists stem, s = stem +:+ suffix.
Proof.
  unfold endswith1. rewrite andb_true_iff, Nat.leb_le, String.eqb_eq. split.
  - intros [Hle Hsub].
    exists (substring 0 (String.length s - String.length suffix) s).
    pose proof (substring_split s (String.length s - String.length suffix))
      as Hsplit.
    replace (String.length s - (String.length s - String.length suffix))%nat
      with (String.length suffix) in Hsplit by lia.
    rewrite Hsub in Hsplit. apply Hsplit. lia.
  - intros [stem ->]. rewrite length_append. split; [lia|].
    replace (String.length stem + String.length suffix
             - String.length suffix)%nat with (String.length stem) by lia.
    apply substring_append_r.
Qed.

Lemma is_image_file_spec filename :
  is_image_file filename = true <->
  exists stem e, e ∈ image_extensions /\ lower filename = stem +:+ e.
Proof.
  unfold is_image_file, endswith. rewrite existsb_exists. split.
  - intros (e & He & Hends). apply endswith1_spec in Hends as [stem Hstem].
    exists stem, e. split; [by apply list_elem_of_In | done].
  - intros (stem & e & He & Hstem). exists e.
    split; [by apply list_elem_of_In |]. apply endswith1_spec. by exists stem.
Qed.

End Strings.

Section LoopBody.
Context {Image D : Type} (ext : @External Image D).
Implicit Types (h : gmap nat Image) (opt : Namespace).

Lemma draw_results_draws_on canvas results h :
  Forall (draws_on canvas) (run_trace (draw_results ext canvas results h)).
Proof. by apply emits_draw_results. Qed.

(** Everything the body does on a file that decodes. *)
Lemma loop_body_decoded_cases opt detector img_name h px :
  is_image_file img_name = true ->
  imread ext (path_join (source opt) img_name) = Some px ->
  let img := fresh (dom h) in
  let tr := run_trace (loop_body ext opt detector img_name h) in
  let out := run_out (loop_body ext opt detector img_name h) in
  let start := [EvImread (path_join (source opt) img_name) (Some img);
                EvLog DEBUG (Running_detection_on_image img_name)] in
  match detect ext detector px (keep_size opt) with
  | Raise e =>
      out = Raise e
      /\ exists arg,
           arg ≠ img /\ tr = (start ++ [EvDetect arg (keep_size opt)])%list
  | Ok (detector', r) =>
      exists arg resized drawn,
        arg ≠ img /\ resized ≠ img /\
        let canvas := if keep_size opt then img else resized in
        let before := if keep_size opt then px
                      else default (dr_arg_after r) (dr_resized r) in
        let called := [EvDetect arg (keep_size opt);
                       EvDetectReturn (dr_results r) resized] in
        let target := path_join (des opt) img_name in
        Forall (draws_on canvas) drawn
        /\ match render ext (dr_results r) before with
           | Raise e =>
               out = Raise e /\ tr = (start ++ called ++ drawn)%list
           | Ok pixels =>
               match imwrite ext target pixels with
               | Raise e =>
                   out = Raise e
                   /\ tr = (start ++ called ++ drawn
                            ++ [EvImwrite target canvas pixels])%list
               | Ok _ =>
                   out = Ok detector'
                   /\ tr = (start ++ called ++ drawn
                            ++ [EvImwrite target canvas pixels;
                                EvLog INFO (Saved_result_to target)])%list
               end
           end
  end.
Proof.
  intros Himg Hread. cbn zeta.
  rewrite (loop_body_decoded ext opt detector img_name h px Himg Hread).
  cbn zeta.
  set (img := fresh (dom h)). set (h1 := <[img:=px]> h).
  assert (h1 !! img = Some px) as Hh1 by apply lookup_insert_eq.
  pose proof (detect_on_copy_run ext opt detector img h1 px Hh1) as Hrun.
  pose proof (detect_on_copy_frame ext opt detector img h1 px Hh1) as Hframe.
  pose proof (detect_on_copy_returns ext opt detector img h1 px) as Hret.
  cbn zeta in Hrun.
  assert (fresh (dom h1) ≠ img) as Hne by (apply fresh_ne; eauto).
  destruct (detect ext detector px (keep_size opt)) as [[detector' r]|e].
  2: { rewrite Hrun. cbn. split; [done|]. by exists (fresh (dom h1)). }
  set (rd := detect_on_copy ext opt detector img h1) in *.
  assert (exists resized,
            run_out rd = Ok (detector', dr_results r, resized)
            /\ run_trace rd = [EvDetect (fresh (dom h1)) (keep_size opt);
                               EvDetectReturn (dr_results r) resized])
    as (resized & Hout & Htr).
  { rewrite Hrun. destruct (dr_resized r); eexists; split; reflexivity. }
  destruct (Hret _ _ _ Hh1 Hout) as (_ & Hrne & r' & [= <-] & _ & Hres).
  rewrite Hout, Htr.
  set (canvas := if keep_size opt then img else resized).
  set (before := if keep_size opt then px
                 else default (dr_arg_after r) (dr_resized r)).
  assert (run_heap rd !! canvas = Some before) as Hcanvas.
  { unfold canvas, before. by destruct (keep_size opt). }
  exists (fresh (dom h1)), resized,
    (run_trace (draw_results ext canvas (dr_results r) (run_heap rd))).
  split; [done|]. split; [done|]. split; [apply draw_results_draws_on|].
  rewrite (finish_run ext canvas (dr_results r) _ detector' _ before Hcanvas).
  cbn zeta.
  destruct (render ext (dr_results r) before) as [pixels|e]; [|done].
  destruct (imwrite ext _ pixels) as [b|e]; cbn;
    (split; [done|]); by rewrite <- ?app_assoc.
Qed.

Lemma draws_on_canvas canvas (e : @Event Image) c :
  draws_on canvas e -> canvas_of e = Some c -> c = canvas.
Proof. destruct e; cbn; intros; simplify_eq; done. Qed.

Lemma draws_on_inv canvas (drawn : list (@Event Image)) e :
  Forall (draws_on canvas) drawn -> e ∈ drawn -> draws_on canvas e.
Proof. intros Hall He. by apply (proj1 (Forall_forall _ _) Hall). Qed.

Lemma writes_on_canvas canvas (e : @Event Image) c :
  writes_on canvas e -> canvas_of e = Some c -> c = canvas.
Proof. destruct e; cbn; intros; simplify_eq; done. Qed.

Lemma detect_flag_closed opt img_name :
  body_closed
    (fun e : @Event Image => forall arg b, e = EvDetect arg b -> b = keep_size opt)
    opt img_name.
Proof. constructor; intros; simplify_eq; done. Qed.

(** The trace of the body on a decoded file always has this shape; what
    follows from the shape alone. *)
Lemma decoded_trace_shape opt detector img_name h px :
  is_image_file img_name = true ->
  imread ext (path_join (source opt) img_name) = Some px ->
  exists arg called drawn rest,
    run_trace (loop_body ext opt detector img_name h) =
      ([EvImread (path_join (source opt) img_name) (Some (fresh (dom h)));
        EvLog DEBUG (Running_detection_on_image img_name);
        EvDetect arg (keep_size opt)] ++ called ++ drawn ++ rest)%list
    /\ arg ≠ fresh (dom h)
    /\ (called = [] /\ drawn = [] /\ rest = []
        \/ exists rs resized,
             resized ≠ fresh (dom h)
             /\ called = [EvDetectReturn rs resized]
             /\ Forall (draws_on (if keep_size opt then fresh (dom h)
                                  else resized)) drawn
             /\ Forall (writes_on (if keep_size opt then fresh (dom h)
                                   else resized)) rest).
Proof.
  intros Himg Hread.
  pose proof (loop_body_decoded_cases opt detector img_name h px Himg Hread)
    as Hcases. cbn zeta in Hcases.
  destruct (detect ext detector px (keep_size opt)) as [[detector' r]|e].
  2: { destruct Hcases as (_ & arg & Hne & ->). exists arg, [], [], [].
       split; [done|]. split; [done|]. by left. }
  destruct Hcases as (arg & resized & drawn & Hne & Hrne & Hdrawn & Hcases).
  exists arg, [EvDetectReturn (dr_results r) resized], drawn.
  destruct (render ext (dr_results r) _) as [pixels|e].
  - destruct (imwrite ext _ pixels) as [b|e]; destruct Hcases as [_ ->];
      eexists; (split; [reflexivity|]); (split; [done|]); right;
      eexists _, _; (split; [done|]); (split; [reflexivity|]);
      (split; [done|]); repeat constructor.
  - destruct Hcases as [_ ->]. exists [].
    split; [cbn; by rewrite app_nil_r|]. split; [done|]. right.
    eexists _, _. by repeat split.
Qed.

(** The events of the drawing loop when nothing in it raises. *)
Lemma draw_results_events canvas results : forall h px px',
  h !! canvas = Some px ->
  render ext results px = Ok px' ->
  run_trace (draw_results ext canvas results h)
  = concat (map (detection_events canvas) results).
Proof.
  induction results as [|r rest IH]; intros h px px' Hc;
    cbn [render draw_results map concat]; [done|].
  unfold detection_events at 1.
  destruct (unpack_box (det_box r)) as [[[[x1 y1] x2] y2]|e]; cbn;
    [|discriminate].
  unfold cv2_rectangle, cv2_putText.
  rewrite run_bind. cbn [lift run_out run_heap run_trace].
  rewrite bind_assoc, (bind_load _ _ _ _ Hc), bind_assoc, bind_emit.
  rewrite bind_assoc.
  destruct (rectangle ext px _ _ _ _) as [p1|e]; cbn; [|discriminate].
  rewrite bind_lift_ok, bind_store.
  rewrite bind_assoc, (bind_load _ p1) by apply lookup_insert_eq.
  rewrite bind_assoc, bind_emit, bind_assoc.
  destruct (putText ext p1 _ _ _ _ _ _) as [p2|e]; cbn; [|discriminate].
  rewrite bind_lift_ok, bind_store, bind_log.
  intros Hrest. cbn. do 3 f_equal.
  apply (IH _ p2 px'); [apply lookup_insert_eq | done].
Qed.

(** On a file that decodes the detector is called, with [keep_size] as
    its flag, and what it returns is drawn on the chosen canvas. *)
Lemma loop_body_calls_detector opt detector img_name h px :
  is_image_file img_name = true ->
  imread ext (path_join (source opt) img_name) = Some px ->
  exists arg,
    arg ≠ fresh (dom h)
    /\ [EvImread (path_join (source opt) img_name) (Some (fresh (dom h)));
        EvLog DEBUG (Running_detection_on_image img_name);
        EvDetect arg (keep_size opt)]
         `prefix_of` run_trace (loop_body ext opt detector img_name h)
    /\ (forall e,
          detect ext detector px (keep_size opt) = Raise e ->
          run_out (loop_body ext opt detector img_name h) = Raise e)
    /\ (forall detector' r,
          detect ext detector px (keep_size opt) = Ok (detector', r) ->
          exists resized,
            EvDetectReturn (dr_results r) resized
              ∈ run_trace (loop_body ext opt detector img_name h)
            /\ forall pixels,
                 render ext (dr_results r)
                   (if keep_size opt then px
                    else default (dr_arg_after r) (dr_resized r))
                   = Ok pixels ->
                 exists closing,
                   run_trace (loop_body ext opt detector img_name h) =
                   ([EvImread (path_join (source opt) img_name)
                       (Some (fresh (dom h)));
                     EvLog DEBUG (Running_detection_on_image img_name);
                     EvDetect arg (keep_size opt);
                     EvDetectReturn (dr_results r) resized]
                    ++ concat (map (detection_events
                                      (if keep_size opt then fresh (dom h)
                                       else resized))
                                 (dr_results r))
                    ++ EvImwrite (path_join (des opt) img_name)
                         (if keep_size opt then fresh (dom h) else resized)
                         pixels :: closing)%list).
Proof.
  intros Himg Hread.
  rewrite (loop_body_decoded ext opt detector img_name h px Himg Hread).
  cbn zeta.
  set (img := fresh (dom h)). set (h1 := <[img:=px]> h).
  assert (h1 !! img = Some px) as Hh1 by apply lookup_insert_eq.
  pose proof (detect_on_copy_run ext opt detector img h1 px Hh1) as Hrun.
  pose proof (detect_on_copy_frame ext opt detector img h1 px Hh1) as Hframe.
  pose proof (detect_on_copy_returns ext opt detector img h1 px) as Hret.
  cbn zeta in Hrun.
  exists (fresh (dom h1)).
  split; [apply fresh_ne; eauto|].
  destruct (detect ext detector px (keep_size opt)) as [[detector' r]|e].
  2: { rewrite Hrun. cbn. split; [done|]. split; [|done].
       by intros e' [= <-]. }
  set (rd := detect_on_copy ext opt detector img h1) in *.
  assert (exists resized,
            run_out rd = Ok (detector', dr_results r, resized)
            /\ run_trace rd = [EvDetect (fresh (dom h1)) (keep_size opt);
                               EvDetectReturn (dr_results r) resized])
    as (resized & Hout & Htr).
  { rewrite Hrun. destruct (dr_resized r); eexists; split; reflexivity. }
  destruct (Hret _ _ _ Hh1 Hout) as (_ & _ & r' & [= <-] & _ & Hres).
  rewrite Hout, Htr.
  set (canvas := if keep_size opt then img else resized).
  set (before := if keep_size opt then px
                 else default (dr_arg_after r) (dr_resized r)).
  assert (run_heap rd !! canvas = Some before) as Hcanvas.
  { unfold canvas, before. by destruct (keep_size opt). }
  split; [|split; [done|]].
  { cbn. eexists. reflexivity. }
  intros d' r1 [= <- <-]. exists resized. split.
  { cbn. by do 3 right; left. }
  intros pixels Hrender.
  rewrite (finish_run ext canvas (dr_results r) _ detector' _ before Hcanvas).
  cbn zeta. fold before in Hrender. rewrite Hrender.
  rewrite (draw_results_events canvas (dr_results r) _ before pixels
             Hcanvas Hrender).
  eexists. cbn. rewrite <- app_assoc. reflexivity.
Qed.
(** What the events of one pass say about flag and canvas. *)
Lemma pass_events_agree opt detector img_name h :
  let tr := run_trace (loop_body ext opt detector img_name h) in
  (forall arg b, EvDetect arg b ∈ tr -> b = keep_size opt)
  /\ (forall e c, e ∈ tr -> canvas_of e = Some c ->
        if keep_size opt
        then exists p, EvImread p (Some c) ∈ tr
        else exists rs, EvDetectReturn rs c ∈ tr)
  /\ (forall p p' l l', EvImread p l ∈ tr -> EvImread p' l' ∈ tr ->
        p = p' /\ l = l')
  /\ (forall rs rs' l l', EvDetectReturn rs l ∈ tr ->
        EvDetectReturn rs' l' ∈ tr -> rs = rs' /\ l = l')
  /\ (forall p l rs l', EvImread p (Some l) ∈ tr ->
        EvDetectReturn rs l' ∈ tr -> l' ≠ l).
Proof.
  cbn zeta. split.
  { intros arg b Hin.
    pose proof (emits_loop_body ext _ opt detector img_name
                  (detect_flag_closed opt img_name) h) as Hall.
    exact (proj1 (Forall_forall _ _) Hall _ Hin arg b eq_refl). }
  destruct (is_image_file img_name) eqn:Himg.
  2: { rewrite (loop_body_not_image ext opt detector img_name h Himg). cbn.
       repeat split; intros; set_solver. }
  destruct (imread ext (path_join (source opt) img_name)) as [px|] eqn:Hread.
  2: { rewrite (loop_body_unreadable ext opt detector img_name h Himg Hread).
       cbn. repeat split; intros; set_solver. }
  destruct (decoded_trace_shape opt detector img_name h px Himg Hread)
    as (arg & called & drawn & rest & -> & _ & Hshape).
  destruct Hshape
    as [(-> & -> & ->)|(rs & resized & Hrne & -> & Hdrawn & Hrest)].
  { cbn. repeat split; intros; set_solver. }
  set (canvas := if keep_size opt then fresh (dom h) else resized) in *.
  assert (forall e : @Event Image, e ∈ drawn -> draws_on canvas e) as Hd
    by (intros e; by apply draws_on_inv).
  assert (forall e : @Event Image, e ∈ rest -> writes_on canvas e) as Hr
    by (intros e He; by apply (proj1 (Forall_forall _ _) Hrest)).
  split; [|split; [|split]].
  - intros e c He Hc.
    assert (c = canvas) as ->.
    { rewrite !elem_of_app, !elem_of_cons in He.
      destruct He as [[He|[He|[He|He]]]|[[He|He]|[He|He]]];
        try (subst e; discriminate Hc).
      - by apply elem_of_nil in He.
      - by apply elem_of_nil in He.
      - apply (draws_on_canvas canvas e); [by apply Hd | done].
      - apply (writes_on_canvas canvas e); [by apply Hr | done]. }
    unfold canvas. destruct (keep_size opt).
    + eexists. by left.
    + exists rs. by do 3 right; left.
  - intros p p' l l' H1 H2.
    rewrite !elem_of_app, !elem_of_cons in H1, H2.
    destruct H1 as [[H1|[H1|[H1|H1]]]|[[H1|H1]|[H1|H1]]];
      try discriminate H1; try (by apply elem_of_nil in H1);
      try (by apply Hd in H1); try (by apply Hr in H1).
    destruct H2 as [[H2|[H2|[H2|H2]]]|[[H2|H2]|[H2|H2]]];
      try discriminate H2; try (by apply elem_of_nil in H2);
      try (by apply Hd in H2); try (by apply Hr in H2).
    by simplify_eq.
  - intros rs1 rs2 l l' H1 H2.
    rewrite !elem_of_app, !elem_of_cons in H1, H2.
    destruct H1 as [[H1|[H1|[H1|H1]]]|[[H1|H1]|[H1|H1]]];
      try discriminate H1; try (by apply elem_of_nil in H1);
      try (by apply Hd in H1); try (by apply Hr in H1).
    destruct H2 as [[H2|[H2|[H2|H2]]]|[[H2|H2]|[H2|H2]]];
      try discriminate H2; try (by apply elem_of_nil in H2);
      try (by apply Hd in H2); try (by apply Hr in H2).
    by simplify_eq.
  - intros p l rs1 l' H1 H2.
    rewrite !elem_of_app, !elem_of_cons in H1, H2.
    destruct H1 as [[H1|[H1|[H1|H1]]]|[[H1|H1]|[H1|H1]]];
      try discriminate H1; try (by apply elem_of_nil in H1);
      try (by apply Hd in H1); try (by apply Hr in H1).
    destruct H2 as [[H2|[H2|[H2|H2]]]|[[H2|H2]|[H2|H2]]];
      try discriminate H2; try (by apply elem_of_nil in H2);
      try (by apply Hd in H2); try (by apply Hr in H2).
    by simplify_eq.
Qed.

(** C1.  In every pass of the loop body on a file that decodes the
    detector is called, with [bb_scale] equal to [keep_size] and on the
    decoded pixels: the call is in the trace, an exception of the detector
    ends the pass, and when it returns and the boxes can be drawn, the
    rectangle, label and log line of every detection are made on the
    canvas, which is then written out.  The canvas, for whatever is drawn
    on or written out, is the decoded image itself when [keep_size] is set
    and the image the detector returned otherwise.  The pass decodes at
    most one image and sees at most one return of the detector, and the
    two are different arrays, so the canvas is the decoded image exactly
    when [keep_size] is set. *)
Theorem canvas_follows_keep_size opt detector img_name h :
  let tr := run_trace (loop_body ext opt detector img_name h) in
  (forall arg b, EvDetect arg b ∈ tr -> b = keep_size opt)
  /\ (forall e c, e ∈ tr -> canvas_of e = Some c ->
        if keep_size opt
        then exists p, EvImread p (Some c) ∈ tr
        else exists rs, EvDetectReturn rs c ∈ tr)
  /\ (forall p p' l l', EvImread p l ∈ tr -> EvImread p' l' ∈ tr ->
        p = p' /\ l = l')
  /\ (forall rs rs' l l', EvDetectReturn rs l ∈ tr ->
        EvDetectReturn rs' l' ∈ tr -> rs = rs' /\ l = l')
  /\ (forall p l rs l', EvImread p (Some l) ∈ tr ->
        EvDetectReturn rs l' ∈ tr -> l' ≠ l)
  /\ (forall px,
        is_image_file img_name = true ->
        imread ext (path_join (source opt) img_name) = Some px ->
        exists arg,
          arg ≠ fresh (dom h)
          /\ [EvImread (path_join (source opt) img_name)
                (Some (fresh (dom h)));
              EvLog DEBUG (Running_detection_on_image img_name);
              EvDetect arg (keep_size opt)] `prefix_of` tr
          /\ (forall e,
                detect ext detector px (keep_size opt) = Raise e ->
                run_out (loop_body ext opt detector img_name h) = Raise e)
          /\ (forall detector' r,
                detect ext detector px (keep_size opt) = Ok (detector', r) ->
                exists resized,
                  EvDetectReturn (dr_results r) resized ∈ tr
                  /\ forall pixels,
                       render ext (dr_results r)
                         (if keep_size opt then px
                          else default (dr_arg_after r) (dr_resized r))
                         = Ok pixels ->
                       exists closing,
                         tr =
                         ([EvImread (path_join (source opt) img_name)
                             (Some (fresh (dom h)));
                           EvLog DEBUG (Running_detection_on_image img_name);
                           EvDetect arg (keep_size opt);
                           EvDetectReturn (dr_results r) resized]
                          ++ concat (map (detection_events
                                            (if keep_size opt
                                             then fresh (dom h)
                                             else resized))
                                       (dr_results r))
                          ++ EvImwrite (path_join (des opt) img_name)
                               (if keep_size opt then fresh (dom h)
                                else resized)
                               pixels :: closing)%list)).
Proof.
  cbn zeta.
  destruct (pass_events_agree opt detector img_name h)
    as (Hflag & Hcanvas & Hread & Hreturn & Hdistinct).
  repeat (split; [assumption|]).
  intros px. apply loop_body_calls_detector.
Qed.

(** C10.  The detector is called on a copy: the call leaves the decoded
    image in the store as it was, the array passed to it is another object
    than the decoded one, and with [keep_size] set the pixels written out
    are the decoded pixels with the detections drawn on them ([render]),
    whatever the detector did to its argument. *)
Theorem detector_works_on_a_copy opt detector :
  (forall img h px,
      h !! img = Some px ->
      run_heap (detect_on_copy ext opt detector img h) !! img = Some px)
  /\ (forall img_name h p l arg b,
        EvImread p (Some l) ∈ run_trace (loop_body ext opt detector img_name h) ->
        EvDetect arg b ∈ run_trace (loop_body ext opt detector img_name h) ->
        arg ≠ l)
  /\ (forall img_name h p c pixels,
        keep_size opt = true ->
        EvImwrite p c pixels
          ∈ run_trace (loop_body ext opt detector img_name h) ->
        exists px detector' r,
          imread ext (path_join (source opt) img_name) = Some px
          /\ EvImread (path_join (source opt) img_name) (Some c)
               ∈ run_trace (loop_body ext opt detector img_name h)
          /\ detect ext detector px true = Ok (detector', r)
          /\ render ext (dr_results r) px = Ok pixels).
Proof.
  split; [intros img h px; apply detect_on_copy_frame|]. split.
  - intros img_name h p l arg b.
    destruct (is_image_file img_name) eqn:Himg.
    2: { rewrite (loop_body_not_image ext opt detector img_name h Himg).
         cbn. set_solver. }
    destruct (imread ext (path_join (source opt) img_name)) as [px|] eqn:Hread.
    2: { rewrite (loop_body_unreadable ext opt detector img_name h Himg Hread).
         cbn. set_solver. }
    destruct (decoded_trace_shape opt detector img_name h px Himg Hread)
      as (arg' & called & drawn & rest & -> & Hne & Hshape).
    intros H1 H2.
    assert (l = fresh (dom h) /\ arg = arg') as [-> ->]; [|done].
    destruct Hshape
      as [(-> & -> & ->)|(rs & resized & _ & -> & Hdrawn & Hrest)].
    { set_solver. }
    assert (forall e : @Event Image, e ∈ drawn -> draws_on
              (if keep_size opt then fresh (dom h) else resized) e) as Hd
      by (intros e; by apply draws_on_inv).
    assert (forall e : @Event Image, e ∈ rest -> writes_on
              (if keep_size opt then fresh (dom h) else resized) e) as Hr
      by (intros e He; by apply (proj1 (Forall_forall _ _) Hrest)).
    rewrite !elem_of_app, !elem_of_cons in H1, H2.
    destruct H1 as [[H1|[H1|[H1|H1]]]|[[H1|H1]|[H1|H1]]];
      try discriminate H1; try (by apply elem_of_nil in H1);
      try (by apply Hd in H1); try (by apply Hr in H1).
    destruct H2 as [[H2|[H2|[H2|H2]]]|[[H2|H2]|[H2|H2]]];
      try discriminate H2; try (by apply elem_of_nil in H2);
      try (by apply Hd in H2); try (by apply Hr in H2).
    by simplify_eq.
  - intros img_name h p c pixels Hks.
    destruct (is_image_file img_name) eqn:Himg.
    2: { rewrite (loop_body_not_image ext opt detector img_name h Himg).
         cbn. set_solver. }
    destruct (imread ext (path_join (source opt) img_name)) as [px|] eqn:Hread.
    2: { rewrite (loop_body_unreadable ext opt detector img_name h Himg Hread).
         cbn. set_solver. }
    pose proof (loop_body_decoded_cases opt detector img_name h px Himg Hread)
      as Hcases. cbn zeta in Hcases. rewrite Hks in Hcases.
    destruct (detect ext detector px true) as [[detector' r]|e] eqn:Hdet.
    { destruct Hcases as (arg & resized & drawn & _ & _ & Hdrawn & Hcases).
      assert (forall e : @Event Image, e ∈ drawn ->
                draws_on (fresh (dom h)) e) as Hd
        by (intros e; by apply draws_on_inv).
      destruct (render ext (dr_results r) px) as [pixels'|e] eqn:Hrender.
      - assert (EvImwrite p c pixels
                  ∈ run_trace (loop_body ext opt detector img_name h) ->
                c = fresh (dom h) /\ pixels = pixels') as Hw.
        { destruct (imwrite ext _ pixels'); destruct Hcases as [_ ->];
            rewrite !elem_of_app, !elem_of_cons;
            intros [[H|[H|H]]|[[H|[H|H]]|[H|H]]];
            try discriminate H; try (by apply elem_of_nil in H);
            try (by apply Hd in H).
          + destruct H as [H|[H|H]]; try discriminate H;
              [by simplify_eq | by apply elem_of_nil in H].
          + destruct H as [H|H]; [by simplify_eq | by apply elem_of_nil in H]. }
        intros Hin. destruct (Hw Hin) as [-> ->].
        exists px, detector', r. repeat split; try done.
        destruct (imwrite ext _ pixels'); destruct Hcases as [_ ->];
          by left.
      - destruct Hcases as [_ ->].
        rewrite !elem_of_app, !elem_of_cons.
        intros [[H|[H|H]]|[[H|[H|H]]|H]];
          try discriminate H; try (by apply elem_of_nil in H);
          by apply Hd in H. }
    destruct Hcases as (_ & arg & _ & ->). set_solver.
Qed.

Lemma main_loop_skips_non_image opt detector img_name rest h :
  is_image_file img_name = false ->
  main_loop ext opt (img_name :: rest) detector h =
  after [EvLog WARNING (Skipped_non_image_file img_name)]
    (main_loop ext opt rest detector h).
Proof.
  intros Himg. apply main_loop_continue. by apply loop_body_not_image.
Qed.

Lemma main_loop_skips_unreadable opt detector img_name rest h :
  is_image_file img_name = true ->
  imread ext (path_join (source opt) img_name) = None ->
  main_loop ext opt (img_name :: rest) detector h =
  after [EvImread (path_join (source opt) img_name) None;
         EvLog WARNING (Cannot_read_image (path_join (source opt) img_name))]
    (main_loop ext opt rest detector h).
Proof.
  intros Himg Hread. apply main_loop_continue.
  by apply loop_body_unreadable.
Qed.

(** C8.  A file with an image extension that does not decode gives one
    warning, no [imwrite] call and no change of the store or the detector,
    and the loop goes on with the remaining names. *)
Theorem undecodable_file_is_skipped opt detector img_name rest h :
  is_image_file img_name = true ->
  imread ext (path_join (source opt) img_name) = None ->
  main_loop ext opt (img_name :: rest) detector h =
  after [EvImread (path_join (source opt) img_name) None;
         EvLog WARNING (Cannot_read_image (path_join (source opt) img_name))]
    (main_loop ext opt rest detector h).
Proof. apply main_loop_skips_unreadable. Qed.


Lemma imwrite_closed opt (names : list string) img_name :
  img_name ∈ names ->
  body_closed
    (fun e : @Event Image => forall p c px, e = EvImwrite p c px ->
       exists n, n ∈ names /\ is_image_file n = true
                 /\ p = path_join (des opt) n)
    opt img_name.
Proof.
  intros Hin. constructor; intros; simplify_eq. by exists img_name.
Qed.

(** C7.  A name is taken for an image exactly when its lower-cased form
    is some stem followed by one of .png, .jpg, .jpeg, .bmp; any other
    name gives one warning and the loop goes on with the remaining names;
    and every [imwrite] call of the loop is for a name of the listing that
    is an image file, under the output directory. *)
Theorem only_image_files_are_written opt :
  (forall filename,
      is_image_file filename = true <->
      exists stem e, e ∈ image_extensions /\ lower filename = stem +:+ e)
  /\ (forall detector img_name rest h,
        is_image_file img_name = false ->
        main_loop ext opt (img_name :: rest) detector h =
        after [EvLog WARNING (Skipped_non_image_file img_name)]
          (main_loop ext opt rest detector h))
  /\ (forall (names : list string) detector,
        emits (fun e => forall p c px, e = EvImwrite p c px ->
                 exists n, n ∈ names /\ is_image_file n = true
                           /\ p = path_join (des opt) n)
          (main_loop ext opt names detector)).
Proof.
  split; [apply is_image_file_spec|]. split.
  - intros detector img_name rest h. apply main_loop_skips_non_image.
  - intros names detector. apply emits_main_loop.
    intros img_name Hin. by apply imwrite_closed.
Qed.
End LoopBody.

(** ** The properties on concrete runs *)

Lemma canvas_follows_keep_size_witness :
  (exists p,
     EvImread p (Some 0)
       ∈ run_trace (loop_body (Stub.external Stub.scene) keep_size_namespace
                      0 "car1.jpg" ∅))
  /\ exists arg resized closing,
       run_trace (loop_body (Stub.external Stub.scene) keep_size_namespace
                    0 "car1.jpg" ∅) =
       ([EvImread "ch_imgs/car1.jpg" (Some 0);
         EvLog DEBUG (Running_detection_on_image "car1.jpg");
         EvDetect arg true;
         EvDetectReturn
           [Stub.plate [Stub.z 100; Stub.z 50; Stub.z 200; Stub.z 80]]
           resized]
        ++ [EvRectangle 0 (100, 50)%Z (200, 80)%Z (0, 0, 255)%Z 1;
            EvPutText 0 "plate" (100, 47)%Z FONT_HERSHEY_SIMPLEX
              (Finite (1 # 2)) (255, 0, 255)%Z 2;
            EvLog DEBUG (Detected_at "plate" 100 50 200 80)]
        ++ EvImwrite "ch_out/car1.jpg" 0 ["plate"; "rectangle"; "car1"]
           :: closing)%list.
Proof.
  destruct (canvas_follows_keep_size (Stub.external Stub.scene)
              keep_size_namespace 0 "car1.jpg" ∅)
    as (_ & Hcanvas & _ & _ & _ & Hcall).
  split.
  - apply (Hcanvas (EvImwrite "ch_out/car1.jpg" 0
                      ["plate"; "rectangle"; "car1"]) 0);
      [vm_compute; repeat constructor | reflexivity].
  - destruct (Hcall ["car1"] eq_refl eq_refl) as (arg & _ & _ & _ & Hok).
    destruct (Hok 1
                {| dr_results :=
                     [Stub.plate
                        [Stub.z 100; Stub.z 50; Stub.z 200; Stub.z 80]];
                   dr_arg_after := ["resized"; "car1"];
                   dr_resized := Some ["resized"; "car1"] |} eq_refl)
      as (resized & _ & Hdrawn).
    destruct (Hdrawn ["plate"; "rectangle"; "car1"] eq_refl)
      as [closing Htr].
    exists arg, resized, closing. exact Htr.
Defined.

Lemma detector_works_on_a_copy_witness :
  exists px detector' r,
    imread (Stub.external Stub.scene) "ch_imgs/car1.jpg" = Some px
    /\ EvImread "ch_imgs/car1.jpg" (Some 0)
         ∈ run_trace (loop_body (Stub.external Stub.scene)
                        keep_size_namespace 0 "car1.jpg" ∅)
    /\ detect (Stub.external Stub.scene) 0 px true = Ok (detector', r)
    /\ render (Stub.external Stub.scene) (dr_results r) px
       = Ok ["plate"; "rectangle"; "car1"].
Proof.
  destruct (detector_works_on_a_copy (Stub.external Stub.scene)
              keep_size_namespace 0) as (_ & _ & Hwritten).
  apply (Hwritten "car1.jpg" ∅ "ch_out/car1.jpg" 0);
    [reflexivity | vm_compute; repeat constructor].
Defined.

Lemma undecodable_file_is_skipped_witness :
  main_loop (Stub.external Stub.scene) default_namespace ["bad.png"] 0 ∅ =
  after [EvImread "ch_imgs/bad.png" None;
         EvLog WARNING (Cannot_read_image "ch_imgs/bad.png")]
    (main_loop (Stub.external Stub.scene) default_namespace [] 0 ∅).
Proof.
  apply (undecodable_file_is_skipped (Stub.external Stub.scene)
           default_namespace 0 "bad.png" [] ∅); reflexivity.
Defined.

Lemma only_image_files_are_written_witness :
  main_loop (Stub.external Stub.scene) default_namespace
    ["note.txt"; "car1.jpg"] 0 ∅ =
  after [EvLog WARNING (Skipped_non_image_file "note.txt")]
    (main_loop (Stub.external Stub.scene) default_namespace
       ["car1.jpg"] 0 ∅).
Proof.
  destruct (only_image_files_are_written (Stub.external Stub.scene)
              default_namespace) as (_ & Hskip & _).
  apply Hskip. reflexivity.
Defined.



(** The same with a box of three numbers: the unpacking raises. *)
Example short_box_aborts_batch :
  run_out (main (Stub.external Stub.short_box) no_options ∅)
    = Raise ValueError
  /\ run_trace (main (Stub.external Stub.short_box) no_options ∅)
     = [EvMakedirs "ch_out";
        EvConstruct {| arg_size := [1280; 1280]%Z;
                       arg_weights_path := WStr "object.pt";
                       arg_device := "cpu";
                       arg_iou_thres := Finite (1 # 2);
                       arg_conf_thres := Finite (1 # 10) |};
        EvListdir "ch_imgs";
        EvImread "ch_imgs/a.png" (Some 0);
        EvLog DEBUG (Running_detection_on_image "a.png");
        EvDetect 1 false;
        EvDetectReturn [Stub.plate [Stub.z 1; Stub.z 2; Stub.z 3]] 1].
Proof. split; vm_compute; reflexivity. Qed.

(** With [--keep-size] the photograph is written with the strokes drawn on
    the decoded pixels, although the detector scribbled on its argument. *)
Example keep_size_run :
  run_out (main (Stub.external Stub.scene) with_keep_size ∅) = Ok tt
  /\ List.filter (fun e => match canvas_of e with Some _ => true | None => false end)
       (run_trace (main (Stub.external Stub.scene) with_keep_size ∅))
     = [EvRectangle 0 (100, 50)%Z (200, 80)%Z (0, 0, 255)%Z 1;
        EvPutText 0 "plate" (100, 47)%Z FONT_HERSHEY_SIMPLEX
          (Finite (1 # 2)) (255, 0, 255)%Z 2;
        EvImwrite "ch_out/car1.jpg" 0 ["plate"; "rectangle"; "car1"]].
Proof. split; vm_compute; reflexivity. Qed.

(** ** More on configuration resolution *)

Section ParseOptMore.
Implicit Types (cl : CommandLine) (opt : Namespace).

(** X2.  A resolved inference size never has fewer than two elements,
    whatever the command line gave. *)
Theorem resolved_imgsz_has_two_or_more cl opt :
  parse_opt cl = Ok opt -> 2 <= length (imgsz opt).
Proof.
  unfold parse_opt, parse_args, nargs_plus.
  destruct (cl_weights cl) as [[|w ws]|]; destruct (cl_imgsz cl) as [[|d ds]|];
    cbn; try discriminate.
  all: try (destruct ds as [|d' ds]; cbn; intros [= <-]; cbn; lia).
  all: intros [= <-]; cbn; lia.
Qed.

Lemma resolved_imgsz_has_two_or_more_witness :
  2 <= length (imgsz default_namespace).
Proof.
  apply (resolved_imgsz_has_two_or_more no_options default_namespace).
  reflexivity.
Defined.

End ParseOptMore.

(** ** More on file names *)

Section FileNames.

Lemma lower_ascii_idempotent c : lower_ascii (lower_ascii c) = lower_ascii c.
Proof.
  destruct c as [[] [] [] [] [] [] [] []]; vm_compute; reflexivity.
Qed.

Lemma lower_idempotent s : lower (lower s) = lower s.
Proof.
  induction s as [|c s IH]; simpl; [done|].
  by rewrite lower_ascii_idempotent, IH.
Qed.

Lemma lower_append s t : lower (s +:+ t) = lower s +:+ lower t.
Proof.
  induction s as [|c s IH]; [done|].
  change (String (lower_ascii c) (lower (s +:+ t))
          = String (lower_ascii c) (lower s +:+ lower t)).
  by rewrite IH.
Qed.

Lemma lower_length s : String.length (lower s) = String.length s.
Proof. induction s as [|c s IH]; simpl; [done | by rewrite IH]. Qed.

Lemma extension_length e :
  e ∈ image_extensions -> 4 <= String.length e.
Proof.
  unfold image_extensions. rewrite !elem_of_cons, elem_of_nil.
  intros [->|[->|[->|[->|[]]]]]; cbn; lia.
Qed.

Lemma path_join_keeps_name a b : exists pre, path_join a b = pre +:+ b.
Proof.
  unfold path_join. destruct (startswith_slash b).
  - by exists "".
  - destruct (String.eqb a "" || endswith1 a "/").
    + by exists a.
    + exists (a +:+ "/"). induction a as [|c a IH]; [done|].
      change (String c (a +:+ "/" +:+ b) = String c ((a +:+ "/") +:+ b)).
      by rewrite IH.
Qed.

(** X3.  Lower-casing a name beforehand does not change whether it is
    taken for an image: the test does not look at the case of letters. *)
Theorem is_image_file_ignores_case filename :
  is_image_file (lower filename) = is_image_file filename.
Proof. unfold is_image_file. by rewrite lower_idempotent. Qed.

(** X4.  A name of fewer than four characters is never an image. *)
Theorem short_names_are_not_images filename :
  String.length filename < 4 -> is_image_file filename = false.
Proof.
  intros Hlen. destruct (is_image_file filename) eqn:Himg; [|done].
  apply is_image_file_spec in Himg as (stem & e & He & Hlow).
  apply extension_length in He.
  pose proof (lower_length filename) as Hl.
  rewrite Hlow, length_append in Hl. lia.
Qed.

Lemma short_names_are_not_images_witness : is_image_file "png" = false.
Proof. apply short_names_are_not_images. cbn. lia. Defined.

(** X5.  Any stem, the empty one included, followed by a suffix that
    lower-cases to one of the four extensions is an image name. *)
Theorem any_stem_with_extension_is_image stem suffix :
  lower suffix ∈ image_extensions ->
  is_image_file (stem +:+ suffix) = true.
Proof.
  intros He. apply is_image_file_spec.
  exists (lower stem), (lower suffix). split; [done|]. apply lower_append.
Qed.

Lemma any_stem_with_extension_is_image_witness :
  is_image_file ("" +:+ ".JPeG") = true.
Proof.
  apply any_stem_with_extension_is_image. vm_compute. repeat constructor.
Defined.

Lemma joined_path_is_image dir img_name :
  is_image_file img_name = true ->
  is_image_file (path_join dir img_name) = true.
Proof.
  intros Himg. apply is_image_file_spec in Himg as (stem & e & He & Hlow).
  destruct (path_join_keeps_name dir img_name) as [pre ->].
  apply is_image_file_spec. exists (lower pre +:+ stem), e.
  split; [done|]. rewrite lower_append, Hlow.
  generalize (lower pre). intros p. induction p as [|c p IH]; [done|].
  change (String c (p +:+ stem +:+ e) = String c ((p +:+ stem) +:+ e)).
  by rewrite IH.
Qed.

End FileNames.

(** ** More on the boxes *)

Section Boxes.

(** [int] of a finite float is the floor of a value that is not negative
    and the ceiling of a negative one. *)
Lemma py_int_truncates q : py_int (Finite q) = Ok (truncate q).
Proof.
  destruct q as [n d]. unfold py_int, truncate, Qle_bool, Qceiling, Qfloor.
  cbn [Qnum Qden Qopp]. f_equal.
  replace (0 * Z.pos d <=? n * 1)%Z with (0 <=? n)%Z
    by (rewrite Z.mul_0_l, Z.mul_1_r; done).
  destruct (0 <=? n)%Z eqn:Hn.
  - apply Z.leb_le in Hn. apply Z.quot_div_nonneg; lia.
  - apply Z.leb_gt in Hn.
    rewrite <- (Z.opp_involutive n) at 1.
    rewrite Z.quot_opp_l by lia. f_equal.
    apply Z.quot_div_nonneg; lia.
Qed.

(** X6.  The unpacking of a box succeeds exactly on four finite numbers,
    and gives each of them rounded toward zero. *)
Theorem unpack_box_succeeds_on_four_finite box t :
  unpack_box box = Ok t <->
  exists a b c d,
    box = [Finite a; Finite b; Finite c; Finite d]
    /\ t = (truncate a, truncate b, truncate c, truncate d).
Proof.
  split.
  - destruct box as [|[a| |] [|[b| |] [|[c| |] [|[d| |] [|e rest]]]]];
      try discriminate.
    + unfold unpack_box. rewrite !py_int_truncates. cbn.
      intros [= <-]. by exists a, b, c, d.
    + unfold unpack_box. rewrite !py_int_truncates. cbn.
      destruct (py_int e); discriminate.
  - intros (a & b & c & d & -> & ->).
    unfold unpack_box. by rewrite !py_int_truncates.
Qed.

(** X7.  A box of finite numbers that does not have four of them raises
    ValueError. *)
Theorem unpack_box_wrong_arity box :
  Forall (fun x => is_finite x = true) box ->
  length box ≠ 4 ->
  unpack_box box = Raise ValueError.
Proof.
  intros Hfin Hlen.
  destruct box as [|a [|b [|c [|d [|e rest]]]]]; cbn in Hlen; try lia;
    repeat match goal with
           | H : Forall _ (_ :: _) |- _ => inversion_clear H
           | x : pyfloat |- _ => destruct x; try discriminate
           end; reflexivity.
Qed.

Lemma unpack_box_wrong_arity_witness :
  unpack_box [Finite 1; Finite 2; Finite 3] = Raise ValueError.
Proof.
  apply unpack_box_wrong_arity; [repeat constructor | cbn; lia].
Defined.
End Boxes.

(** ** More on main *)

Section MainMore.
Context {Image D : Type} (ext : @External Image D).
Implicit Types (h : gmap nat Image) (opt : Namespace).

(** X8.  Start-up failures stop main before anything later is touched: a
    configuration error makes no call at all; a failing [makedirs] is
    followed by no constructor call; a failing constructor by no directory
    listing; a failing listing by no image read.  The store is untouched
    in all four cases. *)
Theorem main_fails_fast cl h :
  (forall e, parse_opt cl = Raise e ->
     main ext cl h = {| run_trace := []; run_heap := h; run_out := Raise e |})
  /\ (forall opt e,
        parse_opt cl = Ok opt ->
        makedirs ext (des opt) = Raise e ->
        main ext cl h =
        {| run_trace := [EvMakedirs (des opt)]; run_heap := h;
           run_out := Raise e |})
  /\ (forall opt e,
        parse_opt cl = Ok opt ->
        makedirs ext (des opt) = Ok tt ->
        Detection ext (detection_args opt) = Raise e ->
        main ext cl h =
        {| run_trace := [EvMakedirs (des opt);
                         EvConstruct (detection_args opt)];
           run_heap := h; run_out := Raise e |})
  /\ (forall opt detector e,
        parse_opt cl = Ok opt ->
        makedirs ext (des opt) = Ok tt ->
        Detection ext (detection_args opt) = Ok detector ->
        listdir ext (source opt) = Raise e ->
        main ext cl h =
        {| run_trace := [EvMakedirs (des opt);
                         EvConstruct (detection_args opt);
                         EvListdir (source opt)];
           run_heap := h; run_out := Raise e |}).
Proof.
  unfold main, os_makedirs, new_Detection, os_listdir. repeat split.
  - intros e ->. reflexivity.
  - intros opt e -> Hm.
    by rewrite bind_lift_ok, bind_assoc, bind_emit, Hm, bind_lift_raise.
  - intros opt e -> Hm Hd.
    rewrite bind_lift_ok, bind_assoc, bind_emit, Hm, bind_lift_ok.
    by rewrite bind_assoc, bind_emit, Hd, bind_lift_raise.
  - intros opt detector e -> Hm Hd Hl.
    rewrite bind_lift_ok, bind_assoc, bind_emit, Hm, bind_lift_ok.
    rewrite bind_assoc, bind_emit, Hd, bind_lift_ok.
    by rewrite bind_assoc, bind_emit, Hl, bind_lift_raise.
Qed.

(** X9.  On an empty source directory main ends normally after creating
    the output directory, constructing the detector and listing the
    directory: nothing is read, drawn, written or logged. *)
Theorem empty_directory_run cl opt detector h :
  parse_opt cl = Ok opt ->
  makedirs ext (des opt) = Ok tt ->
  Detection ext (detection_args opt) = Ok detector ->
  listdir ext (source opt) = Ok [] ->
  main ext cl h =
  {| run_trace := [EvMakedirs (des opt); EvConstruct (detection_args opt);
                   EvListdir (source opt)];
     run_heap := h; run_out := Ok tt |}.
Proof.
  intros Hp Hm Hd Hl. by rewrite (main_run ext cl opt detector [] h).
Qed.

Lemma image_path_closed opt img_name :
  body_closed
    (fun e : @Event Image => forall p c px, e = EvImwrite p c px ->
       is_image_file p = true)
    opt img_name.
Proof.
  constructor; intros; simplify_eq. by apply joined_path_is_image.
Qed.

(** X11.  Every path handed to [imwrite] is itself an image file name,
    whatever the output directory is. *)
Theorem written_paths_are_image_names opt names detector :
  emits (fun e => forall p c px, e = EvImwrite p c px ->
           is_image_file p = true)
    (main_loop ext opt names detector).
Proof. apply emits_main_loop. intros. apply image_path_closed. Qed.


Lemma bind_ext {A B} (m : @M Image A) (f g : A -> M B) h :
  (forall a h', f a h' = g a h') -> (m ≫= f) h = (m ≫= g) h.
Proof.
  intros Hfg. rewrite !run_bind.
  destruct (run_out (m h)); [by rewrite Hfg | done].
Qed.

(** X12.  The confidence of a detection has no effect on what is drawn
    or logged: two result lists with the same names and boxes give the
    same run of the drawing loop. *)
Theorem draw_results_ignores_confidence canvas results results' :
  Forall2 (fun a b => det_name a = det_name b /\ det_box a = det_box b)
    results results' ->
  forall h, draw_results ext canvas results h
            = draw_results ext canvas results' h.
Proof.
  induction 1 as [|a b rs rs' [Hname Hbox] _ IH]; intros h; [done|].
  cbn [draw_results]. rewrite Hname, Hbox.
  apply bind_ext. intros [[[x1 y1] x2] y2] h1.
  apply bind_ext. intros _ h2. apply bind_ext. intros _ h3.
  apply bind_ext. intros _ h4. apply IH.
Qed.

(** X13.  When every box converts and every drawing call returns, the
    drawing loop makes, for each detection in order, one rectangle on the
    box, one label three pixels above its first corner and one debug
    line, and nothing else. *)
Theorem draw_results_trace canvas results : forall h px px',
  h !! canvas = Some px ->
  render ext results px = Ok px' ->
  run_trace (draw_results ext canvas results h)
  = concat (map (detection_events canvas) results).
Proof. exact (draw_results_events ext canvas results). Qed.

(** *** What is written *)

Lemma written_paths_drawn canvas (drawn : list (@Event Image)) :
  Forall (draws_on canvas) drawn -> written_paths drawn = [].
Proof.
  induction 1 as [|e drawn He _ IH]; [done|].
  unfold written_paths in *. cbn. rewrite IH. by destruct e.
Qed.

(** One pass writes at most one file, and only for a name that decodes;
    a pass that ends normally on such a name has written it. *)
Lemma loop_body_written opt detector img_name h :
  (written_paths (run_trace (loop_body ext opt detector img_name h)) = []
   \/ decodable ext opt img_name = true
      /\ written_paths (run_trace (loop_body ext opt detector img_name h))
         = [path_join (des opt) img_name])
  /\ (forall detector',
        run_out (loop_body ext opt detector img_name h) = Ok detector' ->
        written_paths (run_trace (loop_body ext opt detector img_name h))
        = if decodable ext opt img_name
          then [path_join (des opt) img_name] else []).
Proof.
  unfold decodable.
  destruct (is_image_file img_name) eqn:Himg.
  2: { rewrite (loop_body_not_image ext opt detector img_name h Himg).
       split; [by left | done]. }
  destruct (imread ext (path_join (source opt) img_name)) as [px|] eqn:Hread.
  2: { rewrite (loop_body_unreadable ext opt detector img_name h Himg Hread).
       split; [by left | done]. }
  pose proof (loop_body_decoded_cases ext opt detector img_name h px
                Himg Hread) as Hcases. cbn zeta in Hcases.
  destruct (detect ext detector px (keep_size opt)) as [[detector' r]|e].
  2: { destruct Hcases as (-> & arg & _ & ->). split; [by left | done]. }
  destruct Hcases as (arg & resized & drawn & _ & _ & Hdrawn & Hcases).
  pose proof (written_paths_drawn _ _ Hdrawn) as Hnone.
  unfold written_paths in *.
  destruct (render ext (dr_results r) _) as [pixels|e].
  - destruct (imwrite ext _ pixels) as [b|e]; destruct Hcases as [-> ->];
      rewrite !omap_app, Hnone; cbn; (split; [by right | done]).
  - destruct Hcases as [-> ->]. rewrite !omap_app, Hnone. cbn.
    split; [by left | done].
Qed.

(** X15.  The files written by the loop are, in listing order, the output
    paths of the names that are image files and decode; a loop that
    raises has written a first part of them, a loop that ends normally all
    of them, one each. *)
Theorem written_paths_follow_listing opt names : forall detector h,
  written_paths (run_trace (main_loop ext opt names detector h))
    `prefix_of` map (path_join (des opt))
                  (List.filter (decodable ext opt) names)
  /\ (forall detector',
        run_out (main_loop ext opt names detector h) = Ok detector' ->
        written_paths (run_trace (main_loop ext opt names detector h))
        = map (path_join (des opt))
            (List.filter (decodable ext opt) names)).
Proof.
  induction names as [|n rest IH]; intros detector h; cbn [main_loop].
  { split; [done | by intros]. }
  rewrite run_bind.
  destruct (loop_body_written opt detector n h) as [Hmost Hok].
  cbn [List.filter].
  destruct (run_out (loop_body ext opt detector n h)) as [d1|e] eqn:Hout.
  - cbn [run_trace run_out]. unfold written_paths in *.
    rewrite omap_app, (Hok d1 eq_refl).
    destruct (IH d1 (run_heap (loop_body ext opt detector n h)))
      as [IHpre IHok].
    destruct (decodable ext opt n); cbn [map app].
    + split; [by apply prefix_cons|]. intros d' Hd'. f_equal.
      by apply (IHok d').
    + split; [done|]. intros d' Hd'. by apply (IHok d').
  - cbn [run_trace run_out]. split; [|done].
    destruct Hmost as [->|[-> ->]]; [apply prefix_nil|].
    cbn [map]. apply prefix_cons, prefix_nil.
Qed.

(** X16.  Whatever a pass writes goes to the output directory under the
    name of the candidate, and is the drawing of the detections on the
    decoded pixels when [keep_size] is set, and on the pixels of the image
    the detector returned otherwise. *)
Theorem written_pixels opt detector img_name h p c pixels :
  EvImwrite p c pixels ∈ run_trace (loop_body ext opt detector img_name h) ->
  p = path_join (des opt) img_name
  /\ exists px detector' r,
       imread ext (path_join (source opt) img_name) = Some px
       /\ detect ext detector px (keep_size opt) = Ok (detector', r)
       /\ render ext (dr_results r)
            (if keep_size opt then px
             else default (dr_arg_after r) (dr_resized r))
          = Ok pixels.
Proof.
  destruct (is_image_file img_name) eqn:Himg.
  2: { rewrite (loop_body_not_image ext opt detector img_name h Himg).
       cbn. set_solver. }
  destruct (imread ext (path_join (source opt) img_name)) as [px|] eqn:Hread.
  2: { rewrite (loop_body_unreadable ext opt detector img_name h Himg Hread).
       cbn. set_solver. }
  pose proof (loop_body_decoded_cases ext opt detector img_name h px
                Himg Hread) as Hcases. cbn zeta in Hcases.
  destruct (detect ext detector px (keep_size opt))
    as [[detector' r]|e] eqn:Hdet.
  2: { destruct Hcases as (_ & arg & _ & ->). set_solver. }
  destruct Hcases as (arg & resized & drawn & _ & _ & Hdrawn & Hcases).
  assert (forall e : @Event Image, e ∈ drawn -> draws_on
            (if keep_size opt then fresh (dom h) else resized) e) as Hd
    by (intros e; by apply draws_on_inv).
  destruct (render ext (dr_results r) _) as [pixels'|e] eqn:Hrender.
  - assert (EvImwrite p c pixels
              ∈ run_trace (loop_body ext opt detector img_name h) ->
            p = path_join (des opt) img_name /\ pixels = pixels') as Hw.
    { destruct (imwrite ext _ pixels'); destruct Hcases as [_ ->];
        rewrite !elem_of_app, !elem_of_cons;
        intros [[H|[H|H]]|[[H|[H|H]]|[H|H]]];
        try discriminate H; try (by apply elem_of_nil in H);
        try (by apply Hd in H).
      + destruct H as [H|[H|H]]; try discriminate H;
          [by simplify_eq | by apply elem_of_nil in H].
      + destruct H as [H|H]; [by simplify_eq | by apply elem_of_nil in H]. }
    intros Hin. destruct (Hw Hin) as [-> ->]. split; [done|].
    by exists px, detector', r.
  - destruct Hcases as [_ ->].
    rewrite !elem_of_app, !elem_of_cons.
    intros [[H|[H|H]]|[[H|[H|H]]|H]];
      try discriminate H; try (by apply elem_of_nil in H);
      by apply Hd in H.
Qed.

(** X17.  When [imwrite] returns, the pass logs the file as saved and
    ends normally whatever [imwrite] returned, also when it returned
    False. *)
Theorem saved_is_logged_whatever_imwrite_returns
    opt detector img_name h px detector' r pixels b :
  is_image_file img_name = true ->
  imread ext (path_join (source opt) img_name) = Some px ->
  detect ext detector px (keep_size opt) = Ok (detector', r) ->
  render ext (dr_results r)
    (if keep_size opt then px else default (dr_arg_after r) (dr_resized r))
    = Ok pixels ->
  imwrite ext (path_join (des opt) img_name) pixels = Ok b ->
  run_out (loop_body ext opt detector img_name h) = Ok detector'
  /\ exists before canvas,
       run_trace (loop_body ext opt detector img_name h) =
       (before ++ [EvImwrite (path_join (des opt) img_name) canvas pixels;
                   EvLog INFO
                     (Saved_result_to (path_join (des opt) img_name))])%list.
Proof.
  intros Himg Hread Hdet Hrender Hwrite.
  pose proof (loop_body_decoded_cases ext opt detector img_name h px
                Himg Hread) as Hcases. cbn zeta in Hcases.
  rewrite Hdet in Hcases.
  destruct Hcases as (arg & resized & drawn & _ & _ & _ & Hcases).
  rewrite Hrender, Hwrite in Hcases. destruct Hcases as [-> ->].
  split; [done|]. eexists _, _. by rewrite !app_assoc.
Qed.

End MainMore.

Lemma draw_results_ignores_confidence_witness :
  draw_results (Stub.external Stub.scene) 0
    [{| det_name := "plate"; det_conf := Finite (9 # 10);
        det_box := [Stub.z 1; Stub.z 2; Stub.z 3; Stub.z 4] |}]
    {[ 0 := ["car"] ]}
  = draw_results (Stub.external Stub.scene) 0
      [{| det_name := "plate"; det_conf := NaN;
          det_box := [Stub.z 1; Stub.z 2; Stub.z 3; Stub.z 4] |}]
      {[ 0 := ["car"] ]}.
Proof.
  apply draw_results_ignores_confidence. repeat constructor.
Defined.

Lemma draw_results_trace_witness :
  run_trace (draw_results (Stub.external Stub.scene) 0
               [Stub.plate [Stub.z 100; Stub.z 50; Stub.z 200; Stub.z 80]]
               {[ 0 := ["car1"] ]})
  = concat (map (detection_events 0)
              [Stub.plate [Stub.z 100; Stub.z 50; Stub.z 200; Stub.z 80]]).
Proof.
  apply (draw_results_trace (Stub.external Stub.scene) 0 _ _ ["car1"]
           ["plate"; "rectangle"; "car1"]);
    reflexivity.
Defined.

Lemma empty_directory_run_witness :
  main (Stub.external empty_directory) no_options ∅ =
  {| run_trace := [EvMakedirs "ch_out";
                   EvConstruct (detection_args default_namespace);
                   EvListdir "ch_imgs"];
     run_heap := ∅; run_out := Ok tt |}.
Proof.
  apply (empty_directory_run (Stub.external empty_directory) no_options
           default_namespace 0 ∅); reflexivity.
Defined.

Lemma written_pixels_witness :
  "ch_out/car1.jpg" = path_join (des default_namespace) "car1.jpg"
  /\ exists px detector' r,
       imread (Stub.external Stub.scene)
         (path_join (source default_namespace) "car1.jpg") = Some px
       /\ detect (Stub.external Stub.scene) 0 px
            (keep_size default_namespace) = Ok (detector', r)
       /\ render (Stub.external Stub.scene) (dr_results r)
            (if keep_size default_namespace then px
             else default (dr_arg_after r) (dr_resized r))
          = Ok ["plate"; "rectangle"; "resized"; "car1"].
Proof.
  apply (written_pixels (Stub.external Stub.scene) default_namespace 0
           "car1.jpg" ∅ "ch_out/car1.jpg" 2).
  vm_compute. repeat constructor.
Defined.

Lemma saved_is_logged_whatever_imwrite_returns_witness :
  run_out (loop_body (unwritable Stub.scene) default_namespace 0
             "car1.jpg" ∅) = Ok 1
  /\ exists before canvas,
       run_trace (loop_body (unwritable Stub.scene) default_namespace 0
                    "car1.jpg" ∅) =
       (before ++ [EvImwrite "ch_out/car1.jpg" canvas
                     ["plate"; "rectangle"; "resized"; "car1"];
                   EvLog INFO (Saved_result_to "ch_out/car1.jpg")])%list.
Proof.
  apply (saved_is_logged_whatever_imwrite_returns (unwritable Stub.scene)
           default_namespace 0 "car1.jpg" ∅ ["car1"] 1
           {| dr_results :=
                [Stub.plate [Stub.z 100; Stub.z 50; Stub.z 200; Stub.z 80]];
              dr_arg_after := ["resized"; "car1"];
              dr_resized := Some ["resized"; "car1"] |}
           ["plate"; "rectangle"; "resized"; "car1"] false);
    reflexivity.
Defined.
